(** * MiniSearch and its search controller (vrypan/demo, theme bckt3)

    A shallow embedding of [themes/bckt3/assets/js/minisearch.js]: the
    [MiniSearch] class (inverted index, [add], [addAll], [search]) and the
    pure helpers of the search controller ([filterDocument], [escapeHtml],
    [highlightText]).

    Conventions of the embedding.
    - JavaScript values are the inductive [Js.Value].  Numbers are the
      integers ([Z]): occurrence counts and epoch timestamps are integers,
      and doubles are exact on them below 2^53; fractions, infinities and NaN
      inputs are outside the model.  NaN only appears as the result of a
      subtraction, as [None] in [Js.Number].
    - Strings are [string]; the letter/digit classes and the case mappings of
      the runtime are those of the ASCII range.
    - [Map] and [Set] keep insertion order, which the code iterates over:
      they are association lists and lists without duplicates.
    - A method that mutates [this] takes the instance and returns the new
      one; a [throw] is the [Throw] completion, carrying the instance as the
      throw left it. *)

From Stdlib Require Import List String Ascii ZArith Bool Lia Permutation Sorted.
Import ListNotations.

Local Open Scope string_scope.
Local Open Scope list_scope.
Local Open Scope Z_scope.

(** ** JavaScript values and the runtime operations the code relies on *)

Module Js.

#[local] Unset Elimination Schemes.
Inductive Value : Type :=
| VUndefined
| VNull
| VBool (b : bool)
| VNum (n : Z)
| VStr (s : string)
| VArr (items : list Value)
| VObj (props : list (string * Value)).
#[local] Set Elimination Schemes.

(** [!v] is [negb (truthy v)]. *)
Definition truthy (v : Value) : bool :=
  match v with
  | VUndefined | VNull => false
  | VBool b => b
  | VNum n => negb (n =? 0)
  | VStr s => negb (s =? "")%string
  | VArr _ | VObj _ => true
  end.

Definition typeOf (v : Value) : string :=
  match v with
  | VUndefined => "undefined"
  | VNull => "object"
  | VBool _ => "boolean"
  | VNum _ => "number"
  | VStr _ => "string"
  | VArr _ | VObj _ => "object"
  end.

Definition isArray (v : Value) : bool :=
  match v with VArr _ => true | _ => false end.

Definition isNullish (v : Value) : bool :=
  match v with VUndefined | VNull => true | _ => false end.

(** SameValueZero, the equality of [Map] keys and of [Array.prototype.includes].
    On primitives it is equality of values.  Objects are compared by
    reference in JavaScript; the model identifies an object with its
    contents (document ids are primitives in every index file). *)
Fixpoint sameValueZero (a b : Value) : bool :=
  match a, b with
  | VUndefined, VUndefined => true
  | VNull, VNull => true
  | VBool x, VBool y => Bool.eqb x y
  | VNum x, VNum y => x =? y
  | VStr x, VStr y => (x =? y)%string
  | VArr xs, VArr ys =>
      (fix items (l r : list Value) : bool :=
         match l, r with
         | [], [] => true
         | x :: l', y :: r' => sameValueZero x y && items l' r'
         | _, _ => false
         end) xs ys
  | VObj ps, VObj qs =>
      (fix entries (l r : list (string * Value)) : bool :=
         match l, r with
         | [], [] => true
         | (k, x) :: l', (k', y) :: r' =>
             (k =? k')%string && sameValueZero x y && entries l' r'
         | _, _ => false
         end) ps qs
  | _, _ => false
  end.

(** [a === b] between the values two different results carry: primitives by
    value, objects and arrays by reference (two results never share one). *)
Definition strictEquals (a b : Value) : bool :=
  match a, b with
  | VArr _, _ | VObj _, _ => false
  | _, _ => sameValueZero a b
  end.

(** *** Objects: own properties in insertion order *)

Fixpoint lookup (props : list (string * Value)) (key : string) : option Value :=
  match props with
  | [] => None
  | (k, v) :: rest => if (k =? key)%string then Some v else lookup rest key
  end.

(** [v.key] and [v[key]].  Only own properties of objects are modelled: the
    keys the code reads ([id], [score], [timestamp], the indexed fields, the
    facet attributes) are not members of any prototype. *)
Definition getProp (v : Value) (key : string) : Value :=
  match v with
  | VObj props => match lookup props key with Some x => x | None => VUndefined end
  | _ => VUndefined
  end.

Definition hasOwn (v : Value) (key : string) : bool :=
  match v with
  | VObj props => match lookup props key with Some _ => true | None => false end
  | _ => false
  end.

Fixpoint setProp (props : list (string * Value)) (key : string) (v : Value)
  : list (string * Value) :=
  match props with
  | [] => [(key, v)]
  | (k, x) :: rest =>
      if (k =? key)%string then (k, v) :: rest else (k, x) :: setProp rest key v
  end.

(** The own enumerable properties [Object.assign] reads from its source.
    The sources here are stored documents, which are objects: [add] stores
    nothing else. *)
Definition ownProps (v : Value) : list (string * Value) :=
  match v with VObj props => props | _ => [] end.

(** [Object.assign(target, source)]: every own property of [source] is set
    on [target], in order, replacing a property [target] already has. *)
Definition objectAssign (target : list (string * Value)) (source : Value) : Value :=
  VObj (fold_left (fun t kv => setProp t (fst kv) (snd kv)) (ownProps source) target).

(** *** Conversions *)

Definition digitChar (d : Z) : ascii := ascii_of_nat (Z.to_nat (48 + d)).

Fixpoint digitsOf (fuel : nat) (n : Z) (acc : string) : string :=
  match fuel with
  | O => acc
  | S fuel' =>
      let acc' := String (digitChar (n mod 10)) acc in
      if n / 10 =? 0 then acc' else digitsOf fuel' (n / 10) acc'
  end.

(** Number::toString on the integers. *)
Definition numberToString (n : Z) : string :=
  let digits := digitsOf (S (Z.to_nat (Z.log2 (Z.abs n)))) (Z.abs n) "" in
  if n <? 0 then String "-" digits else digits.

(** [String(v)]; an array is its elements joined with a comma, where
    [undefined] and [null] elements give the empty string, and an object is
    converted by [Object.prototype.toString].  An object that hides it with a
    [toString] property of its own is not converted by the runtime, which
    throws: the statements that depend on it exclude such values. *)
Fixpoint toStr (v : Value) : string :=
  match v with
  | VUndefined => "undefined"
  | VNull => "null"
  | VBool true => "true"
  | VBool false => "false"
  | VNum n => numberToString n
  | VStr s => s
  | VArr items =>
      String.concat ","
        (map (fun x => match x with
                       | VUndefined | VNull => ""
                       | _ => toStr x
                       end) items)
  | VObj _ => "[object Object]"
  end.

(** [items.join(separator)]. *)
Definition join (items : list Value) (separator : string) : string :=
  String.concat separator
    (map (fun x => if isNullish x then "" else toStr x) items).

(** The Number type of the model: an integer, or [None] for NaN. *)
Definition Number := option Z.

Definition isWhiteSpace (c : ascii) : bool :=
  let n := nat_of_ascii c in
  ((9 <=? n) && (n <=? 13) || (n =? 32))%nat.

Fixpoint trimStart (s : string) : string :=
  match s with
  | String c rest => if isWhiteSpace c then trimStart rest else s
  | EmptyString => s
  end.

Fixpoint allWhiteSpace (s : string) : bool :=
  match s with
  | EmptyString => true
  | String c rest => isWhiteSpace c && allWhiteSpace rest
  end.

(** Decimal digits followed by white space only; [acc] is the value read so
    far and [seen] tells whether a digit was read. *)
Fixpoint readDigits (s : string) (acc : Z) (seen : bool) : Number :=
  match s with
  | EmptyString => if seen then Some acc else None
  | String c rest =>
      let n := Z.of_nat (nat_of_ascii c) in
      if (48 <=? n) && (n <=? 57) then readDigits rest (10 * acc + (n - 48)) true
      else if seen && allWhiteSpace s then Some acc else None
  end.

(** StringToNumber on the integer literals: optional white space, an
    optional sign, decimal digits; the empty or blank string is 0.  Every
    other string is NaN here. *)
Definition stringToNumber (s : string) : Number :=
  match trimStart s with
  | EmptyString => Some 0
  | String "+" rest => readDigits rest 0 false
  | String "-" rest => option_map Z.opp (readDigits rest 0 false)
  | t => readDigits t 0 false
  end.

Definition toNumber (v : Value) : Number :=
  match v with
  | VUndefined => None
  | VNull => Some 0
  | VBool b => Some (if b then 1 else 0)
  | VNum n => Some n
  | VStr s => stringToNumber s
  | VArr _ | VObj _ => stringToNumber (toStr v)
  end.

(** [a - b]. *)
Definition subtract (a b : Value) : Number :=
  match toNumber a, toNumber b with
  | Some x, Some y => Some (x - y)
  | _, _ => None
  end.

(** *** Map and Set *)

Section Collections.
Context {K V : Type} (keyEq : K -> K -> bool).

Fixpoint mapGet (m : list (K * V)) (key : K) : option V :=
  match m with
  | [] => None
  | (k, v) :: rest => if keyEq k key then Some v else mapGet rest key
  end.

(** [m.set(key, v)]: an existing entry keeps its place, a new one goes
    last. *)
Fixpoint mapSet (m : list (K * V)) (key : K) (v : V) : list (K * V) :=
  match m with
  | [] => [(key, v)]
  | (k, x) :: rest =>
      if keyEq k key then (k, v) :: rest else (k, x) :: mapSet rest key v
  end.

Definition setHas (s : list K) (key : K) : bool := existsb (fun k => keyEq k key) s.

Definition setAdd (s : list K) (key : K) : list K :=
  if setHas s key then s else s ++ [key].
End Collections.

(** *** Array.prototype.sort *)

Section ArraySort.
Context {A : Type} (compare : A -> A -> Number).

(** [a] is placed after [b] when the comparator is positive on [(a, b)];
    a NaN result counts as 0. *)
Definition comesAfter (a b : A) : bool :=
  match compare a b with Some z => 0 <? z | None => false end.

Fixpoint insertSorted (x : A) (l : list A) : list A :=
  match l with
  | [] => [x]
  | y :: rest => if comesAfter x y then y :: insertSorted x rest else x :: l
  end.

(** The sort is stable (ECMAScript 2019); with a consistent comparator
    every stable sort returns this list. *)
Definition arraySort (l : list A) : list A := fold_right insertSorted [] l.
End ArraySort.

(** *** Induction on values

    The principle that goes through the elements of an array and the
    property values of an object. *)

Section ValueInduction.
Variable P : Value -> Prop.
Hypothesis undefined_case : P VUndefined.
Hypothesis null_case : P VNull.
Hypothesis bool_case : forall b, P (VBool b).
Hypothesis num_case : forall n, P (VNum n).
Hypothesis str_case : forall s, P (VStr s).
Hypothesis arr_case : forall items, Forall P items -> P (VArr items).
Hypothesis obj_case : forall props, Forall (fun kv => P (snd kv)) props -> P (VObj props).

Fixpoint Value_ind (v : Value) : P v :=
  match v with
  | VUndefined => undefined_case
  | VNull => null_case
  | VBool b => bool_case b
  | VNum n => num_case n
  | VStr s => str_case s
  | VArr items =>
      arr_case items
        ((fix all (l : list Value) : Forall P l :=
            match l with
            | [] => Forall_nil P
            | x :: l' => Forall_cons x (Value_ind x) (all l')
            end) items)
  | VObj props =>
      obj_case props
        ((fix all (l : list (string * Value)) : Forall (fun kv => P (snd kv)) l :=
            match l with
            | [] => Forall_nil _
            | kv :: l' => Forall_cons kv (Value_ind (snd kv)) (all l')
            end) props)
  end.
End ValueInduction.

End Js.

(** ** The index engine: class [MiniSearch] *)

Module MiniSearch.
Import Js.

(** The instance: [this.fields], [this.invertedIndex] (token to document id
    to count) and [this.documents] (document id to document). *)
Record t : Type := mk {
  fields : list string;
  invertedIndex : list (string * list (Value * Z));
  documents : list (Value * Value)
}.

(** [new MiniSearch(options)], with [options.fields] an array of strings or
    missing. *)
Definition create (optionFields : option (list string)) : t :=
  mk (match optionFields with Some fs => fs | None => [] end) [] [].

(** A call either returns, or throws an [Error] with a message. *)
Inductive Completion : Type :=
| Normal (this : t)
| Throw (this : t) (message : string).

Definition asArray (value : Value) : list Value :=
  match value with
  | VArr items => items
  | VUndefined | VNull => []
  | _ => [value]
  end.

(** *** tokenize *)

Definition isUpper (c : ascii) : bool :=
  let n := nat_of_ascii c in ((65 <=? n) && (n <=? 90))%nat.

Definition isLower (c : ascii) : bool :=
  let n := nat_of_ascii c in ((97 <=? n) && (n <=? 122))%nat.

Definition isDigit (c : ascii) : bool :=
  let n := nat_of_ascii c in ((48 <=? n) && (n <=? 57))%nat.

Definition toLowerChar (c : ascii) : ascii :=
  if isUpper c then ascii_of_nat (nat_of_ascii c + 32) else c.

Fixpoint toLowerCase (s : string) : string :=
  match s with
  | EmptyString => EmptyString
  | String c rest => String (toLowerChar c) (toLowerCase rest)
  end.

(** The class [[\p{L}\p{N}]] of [tokenPattern] on the characters of the
    ASCII range: the letters and the digits. *)
Definition isLetterOrNumber (c : ascii) : bool := isUpper c || isLower c || isDigit c.

(** The class [[a-z0-9]] of the fallback pattern. *)
Definition isLowerOrDigit (c : ascii) : bool := isLower c || isDigit c.

(** [text.match(/[class]+/g)]: the maximal runs of characters of the class,
    left to right; [current] is the run being read.  No match ([null] in
    JavaScript) is the empty list. *)
Fixpoint matchRuns (class : ascii -> bool) (text : string) (current : string)
  : list string :=
  match text with
  | EmptyString => match current with EmptyString => [] | _ => [current] end
  | String c rest =>
      if class c then matchRuns class rest (current ++ String c EmptyString)
      else match current with
           | EmptyString => matchRuns class rest EmptyString
           | _ => current :: matchRuns class rest EmptyString
           end
  end.

Definition tokenize (raw : Value) : list string :=
  if negb (truthy raw) then []
  else
    let text := toLowerCase (toStr raw) in
    let tokens := matchRuns isLetterOrNumber text EmptyString in
    let tokens := match tokens with
                  | [] => matchRuns isLowerOrDigit text EmptyString
                  | _ => tokens
                  end in
    map toLowerCase tokens.

(** *** add, addAll *)

(** [docMap.get(id) || 0]. *)
Definition orZero (count : option Z) : Z :=
  match count with
  | Some c => if c =? 0 then 0 else c
  | None => 0
  end.

(** The body of the loop over the tokens of one field. *)
Definition addToken (id : Value) (index : list (string * list (Value * Z)))
  (token : string) : list (string * list (Value * Z)) :=
  let docMap := match mapGet String.eqb index token with
                | Some m => m
                | None => []
                end in
  mapSet String.eqb index token
    (mapSet sameValueZero docMap id (orZero (mapGet sameValueZero docMap id) + 1)).

(** The tokens one field of the document contributes. *)
Definition fieldTokens (document : Value) (field : string) : list string :=
  let value := getProp document field in
  if isNullish value then [] else tokenize (VStr (join (asArray value) " ")).

(** The body of the loop over [this.fields]. *)
Definition addField (id document : Value) (index : list (string * list (Value * Z)))
  (field : string) : list (string * list (Value * Z)) :=
  fold_left (addToken id) (fieldTokens document field) index.

Definition missingId : string := "MiniSearch: document is missing id field".

Definition add (this : t) (document : Value) : Completion :=
  if negb (truthy document) || negb (typeOf document =? "object")%string then
    Normal this
  else
    let id := getProp document "id" in
    if isNullish id then Throw this missingId
    else
      Normal (mk (fields this)
                 (fold_left (addField id document) (fields this) (invertedIndex this))
                 (mapSet sameValueZero (documents this) id document)).

(** The loop of [addAll]: the first [add] that throws ends it. *)
Fixpoint addEach (this : t) (docs : list Value) : Completion :=
  match docs with
  | [] => Normal this
  | document :: rest =>
      match add this document with
      | Normal this' => addEach this' rest
      | Throw this' message => Throw this' message
      end
  end.

Definition addAll (this : t) (docs : Value) : Completion :=
  match docs with
  | VArr items => addEach this items
  | _ => Normal this
  end.

(** *** search *)

(** An element of a match group: [{ token, docs }]. *)
Record Match : Type := mkMatch {
  token : string;
  docs : list (Value * Z)
}.

Fixpoint startsWith (s prefix : string) : bool :=
  match prefix, s with
  | EmptyString, _ => true
  | String p prefix', String c s' => Ascii.eqb c p && startsWith s' prefix'
  | String _ _, EmptyString => false
  end.

Definition lookupTerm (this : t) (term : string) (prefix : bool) : list Match :=
  if negb prefix then
    match mapGet String.eqb (invertedIndex this) term with
    | Some entry => [mkMatch term entry]
    | None => []
    end
  else
    flat_map (fun entry =>
                if startsWith (fst entry) term then [mkMatch (fst entry) (snd entry)]
                else [])
             (invertedIndex this).

(** The ids of one group: the keys of every match, added to a fresh Set. *)
Definition groupIds (group : list Match) : list Value :=
  fold_left (fun ids m => fold_left (setAdd sameValueZero) (map fst (docs m)) ids)
            group [].

(** The loop of [intersection]; [None] is the [null] accumulator, and the
    loop is left as soon as the accumulator is empty. *)
Fixpoint intersect (accumulator : option (list Value)) (matchGroups : list (list Match))
  : option (list Value) :=
  match matchGroups with
  | [] => accumulator
  | group :: rest =>
      let ids := groupIds group in
      let accumulator' :=
        match accumulator with
        | None => ids
        | Some acc =>
            fold_left (fun next id =>
                         if setHas sameValueZero ids id
                         then setAdd sameValueZero next id else next)
                      acc []
        end in
      match accumulator' with
      | [] => Some accumulator'
      | _ => intersect (Some accumulator') rest
      end
  end.

Definition intersection (matchGroups : list (list Match)) : list Value :=
  match intersect None matchGroups with
  | Some acc => acc
  | None => []
  end.

Definition scoreDocument (id : Value) (matchGroups : list (list Match)) : Z :=
  fold_left (fun score group =>
               fold_left (fun score m =>
                            match mapGet sameValueZero (docs m) id with
                            | Some count => if count =? 0 then score else score + count
                            | None => score
                            end)
                         group score)
            matchGroups 0.

(** [typeof r.timestamp === 'number' ? r.timestamp : 0]. *)
Definition timestampOf (r : Value) : Z :=
  match getProp r "timestamp" with VNum n => n | _ => 0 end.

(** The comparator of [collectAll]. *)
Definition byTimestamp (a b : Value) : Number :=
  Some (timestampOf b - timestampOf a).

(** The comparator of [search]. *)
Definition byScore (a b : Value) : Number :=
  if negb (strictEquals (getProp b "score") (getProp a "score")) then
    subtract (getProp b "score") (getProp a "score")
  else
    Some (timestampOf b - timestampOf a).

(** [filterFn && !filterFn(document)]. *)
Definition rejected (filterFn : option (Value -> bool)) (document : Value) : bool :=
  match filterFn with
  | Some f => negb (f document)
  | None => false
  end.

(** [Object.assign({ score }, document)]. *)
Definition withScore (score : Z) (document : Value) : Value :=
  objectAssign [("score", VNum score)] document.

(** The results of [collectAll] before they are sorted. *)
Definition collected (this : t) (filterFn : option (Value -> bool)) : list Value :=
  flat_map (fun entry =>
              if rejected filterFn (snd entry) then [] else [withScore 0 (snd entry)])
           (documents this).

Definition collectAll (this : t) (filterFn : option (Value -> bool)) : list Value :=
  arraySort byTimestamp (collected this filterFn).

(** The results of [search] before they are sorted: the loop over
    [candidateIds]. *)
Definition scored (this : t) (filterFn : option (Value -> bool))
  (matchGroups : list (list Match)) (candidateIds : list Value) : list Value :=
  flat_map (fun id =>
              match mapGet sameValueZero (documents this) id with
              | None => []
              | Some document =>
                  if negb (truthy document) then []
                  else if rejected filterFn document then []
                  else [withScore (scoreDocument id matchGroups) document]
              end)
           candidateIds.

(** [options]: [filter] when it is a function, and [Boolean(options.prefix)]. *)
Record Options : Type := mkOptions {
  filterFn : option (Value -> bool);
  prefix : bool
}.

Definition search (this : t) (query : Value) (options : Options) : list Value :=
  match tokenize query with
  | [] => collectAll this (filterFn options)
  | terms =>
      let matchGroups := map (fun term => lookupTerm this term (prefix options)) terms in
      if existsb (fun group => match group with [] => true | _ => false end) matchGroups
      then []
      else
        match intersection matchGroups with
        | [] => []
        | candidateIds =>
            arraySort byScore (scored this (filterFn options) matchGroups candidateIds)
        end
  end.

End MiniSearch.

(** ** The search controller: facet filter and highlighting *)

Module Controller.
Import Js.

(** The four facet selects of [filterElements]: [None] when the page has no
    such element, otherwise the [value] of the select (the empty string for
    its leading "All ..." option). *)
Record FilterElements : Type := mkFilters {
  language : option string;
  type : option string;
  tag : option string;
  year : option string
}.

(** [element && element.value]. *)
Definition selected (element : option string) : Value :=
  match element with
  | Some value => VStr value
  | None => VNull
  end.

(** [a || b]. *)
Definition orElse (a b : Value) : Value := if truthy a then a else b.

(** [tags.includes(tag)]. *)
Definition includes (items : list Value) (x : Value) : bool :=
  existsb (fun item => sameValueZero item x) items.

(** A call of [filterDocument] returns a boolean, or throws the TypeError of
    calling [substring] on a [date_iso] that is not a string. *)
Inductive Outcome : Type :=
| Returns (b : bool)
| TypeError.

Definition filterDocument (filterElements : FilterElements) (doc : Value) : Outcome :=
  if negb (truthy doc) then Returns false
  else
    let language := selected (language filterElements) in
    let type := selected (type filterElements) in
    let tag := selected (tag filterElements) in
    let year := selected (year filterElements) in
    if truthy language && negb (strictEquals (getProp doc "language") language) then
      Returns false
    else if truthy type
            && negb (strictEquals (orElse (getProp doc "type") (VStr EmptyString)) type) then
      Returns false
    else if truthy tag
            && negb (isArray (getProp doc "tags")
                     && includes (MiniSearch.asArray (getProp doc "tags")) tag) then
      Returns false
    else if truthy year then
      let date_iso := getProp doc "date_iso" in
      if truthy date_iso then
        match date_iso with
        | VStr s =>
            if negb (strictEquals (VStr (substring 0 4 s)) year) then Returns false
            else Returns true
        | _ => TypeError
        end
      else if negb (strictEquals (VStr EmptyString) year) then Returns false
      else Returns true
    else Returns true.

(** *** escapeHtml *)

Definition escapeChar (ch : ascii) : string :=
  if Ascii.eqb ch "&" then "&amp;"
  else if Ascii.eqb ch "<" then "&lt;"
  else if Ascii.eqb ch ">" then "&gt;"
  else if Ascii.eqb ch "034" then "&quot;"
  else if Ascii.eqb ch "'" then "&#39;"
  else String ch EmptyString.

Fixpoint escapeHtml (value : string) : string :=
  match value with
  | EmptyString => EmptyString
  | String ch rest => escapeChar ch ++ escapeHtml rest
  end.

(** *** highlightText *)

Definition toUpperChar (c : ascii) : ascii :=
  if MiniSearch.isLower c then ascii_of_nat (nat_of_ascii c - 32) else c.

(** The pattern [new RegExp(`(${escapeRegex(token)})`, 'gi')] at the head of
    [s]: [escapeRegex] makes every character of the token literal, and the
    [i] flag compares characters by their upper case. *)
Fixpoint matchesAt (token s : string) : bool :=
  match token, s with
  | EmptyString, _ => true
  | String t token', String c s' =>
      Ascii.eqb (toUpperChar c) (toUpperChar t) && matchesAt token' s'
  | String _ _, EmptyString => false
  end.

(** [s.replace(pattern, '<mark>$1</mark>')] for a non-empty token: the
    matches are found left to right and do not overlap.  [pending] counts the
    characters of the current match still to be copied. *)
Fixpoint wrapMatches (token s : string) (pending : nat) : string :=
  match s with
  | EmptyString => EmptyString
  | String c rest =>
      let copy (remaining : nat) :=
        String c (match remaining with
                  | O => "</mark>" ++ wrapMatches token rest O
                  | S _ => wrapMatches token rest remaining
                  end) in
      match pending with
      | S remaining => copy remaining
      | O =>
          if matchesAt token s then "<mark>" ++ copy (String.length token - 1)%nat
          else String c (wrapMatches token rest O)
      end
  end.

(** The comparator [(a, b) => b.length - a.length]. *)
Definition byLength (a b : string) : Number :=
  Some (Z.of_nat (String.length b) - Z.of_nat (String.length a)).

(** [tokens.slice().filter(Boolean).sort(...)]. *)
Definition sortedTokens (tokens : list string) : list string :=
  arraySort byLength (filter (fun token => negb (token =? EmptyString)%string) tokens).

(** [text] is [text || ''], a string; [tokens] is the token array, the empty
    list also standing for a missing one. *)
Definition highlightText (text : string) (tokens : list string) : string :=
  if allWhiteSpace text || match tokens with [] => true | _ => false end then
    escapeHtml text
  else
    fold_left (fun highlighted token => wrapMatches token highlighted O)
              (sortedTokens tokens) (escapeHtml text).

(** *** escapeRegex *)

(** The class [[.*+?^${}()|[\]\\]] of [escapeRegex]. *)
Definition isRegexSpecial (c : ascii) : bool :=
  existsb (Ascii.eqb c)
    ["."; "*"; "+"; "?"; "^"; "$"; "{"; "}"; "("; ")"; "|"; "["; "]"; "\"]%char.

(** [value.replace(/[.*+?^${}()|[\]\\]/g, '\\$&')]: a backslash goes in
    front of every character of the class. *)
Fixpoint escapeRegex (value : string) : string :=
  match value with
  | EmptyString => EmptyString
  | String c rest =>
      if isRegexSpecial c then String "\" (String c (escapeRegex rest))
      else String c (escapeRegex rest)
  end.

(** *** tagSlug *)

Fixpoint trimEnd (s : string) : string :=
  match s with
  | EmptyString => EmptyString
  | String c rest =>
      match trimEnd rest with
      | EmptyString => if isWhiteSpace c then EmptyString else String c EmptyString
      | kept => String c kept
      end
  end.

(** [s.trim()]. *)
Definition trim (s : string) : string := trimEnd (trimStart s).

(** [s.replace(/\s+/g, '-')]: one dash for every maximal run of white
    space; [inRun] tells that the run of the previous character goes on. *)
Fixpoint dashRuns (s : string) (inRun : bool) : string :=
  match s with
  | EmptyString => EmptyString
  | String c rest =>
      if isWhiteSpace c then
        if inRun then dashRuns rest true else String "-" (dashRuns rest true)
      else String c (dashRuns rest false)
  end.

Definition tagSlug (tag : Value) : string :=
  dashRuns (MiniSearch.toLowerCase (trim (toStr (orElse tag (VStr EmptyString))))) false.

(** *** dedupe *)

(** The body of the loop: [seen] is the Set, [result] the array. *)
Definition dedupeStep (state : list string * list string) (item : Value)
  : list string * list string :=
  let lower := MiniSearch.toLowerCase (toStr item) in
  if setHas String.eqb (fst state) lower then state
  else (setAdd String.eqb (fst state) lower, snd state ++ [lower]).

Definition dedupe (items : list Value) : list string :=
  snd (fold_left dedupeStep items ([], [])).

(** *** applySort *)

(** The comparator [(a, b) => (b.timestamp || 0) - (a.timestamp || 0)]. *)
Definition byNewest (a b : Value) : Number :=
  subtract (orElse (getProp b "timestamp") (VNum 0))
           (orElse (getProp a "timestamp") (VNum 0)).

(** [sortSelect] is [None] when the page has no sort select, otherwise its
    value. *)
Definition applySort (sortSelect : option string) (results : list Value) : list Value :=
  match sortSelect with
  | None => results
  | Some mode => if (mode =? "newest")%string then arraySort byNewest results else results
  end.

(** *** The paragraphs of renderFarcasterSummary *)

Definition newline : ascii := "010".

(** [highlighted.split(/\n{2,}/)]: the pieces between the maximal runs of
    two or more newlines.  [current] is the piece being read and [pending]
    the number of newlines read since its last character. *)
Fixpoint splitParagraphs (s : string) (current : string) (pending : nat) : list string :=
  match s with
  | EmptyString =>
      match pending with
      | O => [current]
      | S O => [(current ++ String newline EmptyString)%string]
      | S (S _) => [current; EmptyString]
      end
  | String c rest =>
      if Ascii.eqb c newline then splitParagraphs rest current (S pending)
      else
        match pending with
        | O => splitParagraphs rest (current ++ String c EmptyString)%string O
        | S O =>
            splitParagraphs rest
              (current ++ String newline (String c EmptyString))%string O
        | S (S _) => current :: splitParagraphs rest (String c EmptyString) O
        end
  end.

(** [segment.replace(/\n/g, '<br>')]. *)
Fixpoint breakLines (segment : string) : string :=
  match segment with
  | EmptyString => EmptyString
  | String c rest =>
      if Ascii.eqb c newline then ("<br>" ++ breakLines rest)%string
      else String c (breakLines rest)
  end.

(** The markup [renderFarcasterSummary] puts into the content element; the
    element stays empty when the highlighted text is empty. *)
Definition farcasterParagraphs (highlighted : string) : string :=
  match highlighted with
  | EmptyString => EmptyString
  | _ =>
      String.concat EmptyString
        (map (fun segment => ("<p>" ++ segment ++ "</p>")%string)
             (filter (fun segment => negb (trim segment =? EmptyString)%string)
                     (map breakLines (splitParagraphs highlighted EmptyString O))))
  end.

End Controller.

(** ** Vocabulary of the statements *)

Module Vocabulary.
Import Js MiniSearch.

(** A document as [add] takes it: a truthy value of type object. *)
Definition isDocument (v : Value) : Prop :=
  truthy v = true /\ typeOf v = "object".

(** The tokens of the index, in insertion order. *)
Definition indexedTokens (this : t) : list string := map fst (invertedIndex this).

(** A term resolves to no index entry: no such token when prefix mode is
    off, no indexed token starting with the term when it is on. *)
Definition unmatched (this : t) (prefixMode : bool) (term : string) : Prop :=
  if prefixMode
  then forall tok, In tok (indexedTokens this) -> startsWith tok term = false
  else ~ In term (indexedTokens this).

(** The instance a call left behind, whether it returned or threw. *)
Definition built (c : Completion) : t :=
  match c with Normal this => this | Throw this _ => this end.

(** The scenario of the specification: two documents indexed on [title]. *)
Definition helloWorld : Value :=
  VObj [("id", VStr "a"); ("title", VStr "Hello World"); ("timestamp", VNum 10)].

Definition helloThere : Value :=
  VObj [("id", VStr "b"); ("title", VStr "Hello There"); ("timestamp", VNum 20)].

Definition helloIndex : t :=
  built (addAll (create (Some ["title"])) (VArr [helloWorld; helloThere])).

End Vocabulary.

Module Counts.
Import Js MiniSearch.

(** The occurrence count the inverted index stores for a token and a
    document id; 0 when it stores none. *)
Definition countIn (index : list (string * list (Value * Z))) (tok : string) (id : Value) : Z :=
  match mapGet String.eqb index tok with
  | Some docMap =>
      match mapGet sameValueZero docMap id with
      | Some c => c
      | None => 0
      end
  | None => 0
  end.

Definition count (this : t) (tok : string) (id : Value) : Z :=
  countIn (invertedIndex this) tok id.

(** Every token one [add] of the document reads, over all indexed fields. *)
Definition documentTokens (this : t) (document : Value) : list string :=
  flat_map (fieldTokens document) (fields this).

(** How many times a token occurs among them. *)
Definition occurrences (tok : string) (tokens : list string) : Z :=
  Z.of_nat (count_occ string_dec tokens tok).

End Counts.

Module Candidates.
Import Js MiniSearch.

(** The candidate ids of [search] for the terms of a query:
    [this.intersection(terms.map(term => this.lookupTerm(term, prefix)))]. *)
Definition candidateIds (this : t) (terms : list string) (prefixMode : bool) : list Value :=
  intersection (map (fun term => lookupTerm this term prefixMode) terms).

(** Three posts indexed on [title]: the tokens "blog" and "blogging" both
    start with "blo". *)
Definition blogPosts : list Value :=
  [VObj [("id", VStr "p1"); ("title", VStr "My blog")];
   VObj [("id", VStr "p2"); ("title", VStr "Blogging daily")];
   VObj [("id", VStr "p3"); ("title", VStr "Daily notes")]].

Definition blogIndex : t :=
  Vocabulary.built (addAll (create (Some ["title"])) (VArr blogPosts)).

End Candidates.

Module Facets.
Import Js Controller.

(** A facet filter is set to [value]: the select exists and its value is
    not the empty one of the "All ..." option. *)
Definition chosen (element : option string) (value : string) : Prop :=
  element = Some value /\ value <> EmptyString.

(** The document's type, the empty string when it has none. *)
Definition documentType (doc : Value) : Value :=
  match getProp doc "type" with
  | VUndefined | VNull => VStr EmptyString
  | v => v
  end.

(** The first four characters of the document's [date_iso], when it is a
    string. *)
Definition documentYear (doc : Value) : option string :=
  match getProp doc "date_iso" with
  | VStr iso => Some (substring 0 4 iso)
  | _ => None
  end.

(** Every filter that is set matches the document. *)
Definition facetsMatch (filterElements : FilterElements) (doc : Value) : Prop :=
  (forall v, chosen (language filterElements) v -> getProp doc "language" = VStr v) /\
  (forall v, chosen (type filterElements) v -> documentType doc = VStr v) /\
  (forall v, chosen (tag filterElements) v ->
     exists items, getProp doc "tags" = VArr items /\ In (VStr v) items) /\
  (forall v, chosen (year filterElements) v -> documentYear doc = Some v).

(** No filter is set. *)
Definition noFacet (filterElements : FilterElements) : Prop :=
  forall v, ~ chosen (language filterElements) v /\ ~ chosen (type filterElements) v /\
            ~ chosen (tag filterElements) v /\ ~ chosen (year filterElements) v.

(** The scenario documents for the year filter. *)
Definition post2023 : Value := VObj [("id", VStr "y1"); ("date_iso", VStr "2023-05-01T00:00:00Z")].
Definition post2024 : Value := VObj [("id", VStr "y2"); ("date_iso", VStr "2024-01-01T00:00:00Z")].

End Facets.

Module Ordering.
Import Js.

(** Results are ranked by a pair of integers, the first component first. *)
Definition ranksBelow (p q : Z * Z) : bool :=
  (fst p <? fst q) || ((fst p =? fst q) && (snd p <? snd q)).

Definition sameRank (p q : Z * Z) : bool :=
  (fst p =? fst q) && (snd p =? snd q).

(** No element of the list ranks below an element that comes after it. *)
Definition descending {A : Type} (rank : A -> Z * Z) (l : list A) : Prop :=
  StronglySorted (fun a b => ranksBelow (rank a) (rank b) = false) l.

(** [sorted] holds the elements of [original], and elements of equal rank
    are in the order they have in [original]. *)
Definition stableOrderOf {A : Type} (rank : A -> Z * Z) (original sorted : list A) : Prop :=
  Permutation original sorted /\
  forall k, filter (fun a => sameRank (rank a) k) sorted
            = filter (fun a => sameRank (rank a) k) original.

(** The comparator is positive exactly on an element that ranks below the
    other one, for the elements of [l]. *)
Definition follows {A : Type} (compare : A -> A -> Number) (rank : A -> Z * Z)
  (l : list A) : Prop :=
  forall a b, In a l -> In b l ->
    comesAfter compare a b = ranksBelow (rank a) (rank b).

End Ordering.

Module Markup.
Import Js MiniSearch.

Fixpoint occursIn (c : ascii) (s : string) : bool :=
  match s with
  | EmptyString => false
  | String x rest => Ascii.eqb x c || occursIn c rest
  end.





End Markup.

Module Scores.
Import Js MiniSearch Ordering.

(** The score a result carries, when it is a number. *)
Definition scoreOf (r : Value) : Z :=
  match getProp r "score" with VNum s => s | _ => 0 end.

(** Results are ranked by score, then by timestamp. *)
Definition resultRank (r : Value) : Z * Z := (scoreOf r, timestampOf r).

(** In listing mode results are ranked by timestamp alone. *)
Definition recencyRank (r : Value) : Z * Z := (timestampOf r, 0).

(** No stored document has a property named [score] of its own. *)
Definition noOwnScore (this : t) : Prop :=
  forall id document, In (id, document) (documents this) -> hasOwn document "score" = false.

(** The match groups of [search] for the terms of a query. *)
Definition matchGroupsOf (this : t) (terms : list string) (prefixMode : bool)
  : list (list Match) :=
  map (fun term => lookupTerm this term prefixMode) terms.

(** The count a match stores for a document, 0 when it stores none. *)
Definition countFor (id : Value) (m : Match) : Z :=
  match mapGet sameValueZero (docs m) id with
  | Some c => c
  | None => 0
  end.

(** The sum, over all groups and all their matches, of the document's
    counts. *)
Definition matchedCounts (id : Value) (matchGroups : list (list Match)) : Z :=
  fold_right Z.add 0 (map (countFor id) (List.concat matchGroups)).



(** Two posts with scores of their own: the older one has the higher. *)
Definition ratedPosts : list Value :=
  [VObj [("id", VStr "a"); ("title", VStr "first"); ("score", VNum 1); ("timestamp", VNum 10)];
   VObj [("id", VStr "b"); ("title", VStr "second"); ("score", VNum 5); ("timestamp", VNum 5)]].

Definition ratedPostsIndex : t :=
  Vocabulary.built (addAll (create (Some ["title"])) (VArr ratedPosts)).

End Scores.

Module Listing.
Import Js MiniSearch.

(** The results of [search] as the loops produce them, before [sort]. *)
Definition unsorted (this : t) (query : Value) (options : Options) : list Value :=
  match tokenize query with
  | [] => collected this (filterFn options)
  | terms =>
      let matchGroups := map (fun term => lookupTerm this term (prefix options)) terms in
      if existsb (fun group => match group with [] => true | _ => false end) matchGroups
      then []
      else scored this (filterFn options) matchGroups (intersection matchGroups)
  end.

End Listing.

Module Coverage.
Import Js MiniSearch Controller.

(** Every character of the string is in the class. *)
Fixpoint allChars (class : ascii -> bool) (s : string) : bool :=
  match s with
  | EmptyString => true
  | String c rest => class c && allChars class rest
  end.

(** Some character of the string is in the class. *)
Fixpoint anyChar (class : ascii -> bool) (s : string) : bool :=
  match s with
  | EmptyString => false
  | String c rest => class c || anyChar class rest
  end.

(** A token as the index holds it: not empty, lower-case letters and digits
    only. *)
Definition isToken (tok : string) : Prop :=
  tok <> EmptyString /\ allChars isLowerOrDigit tok = true.

(** The characters of the ASCII range.  On a text made of them the classes
    [\p{L}] and [\p{N}] are the letters A-Z, a-z and the digits 0-9, and
    [toLowerCase] maps A-Z to a-z and nothing else: this is the range on
    which the classes and the case mapping above are those of the runtime. *)
Definition isAscii (c : ascii) : bool := (nat_of_ascii c <? 128)%nat.

Definition asciiText (s : string) : bool := allChars isAscii s.

End Coverage.

Module Invariants.
Import Js MiniSearch Vocabulary Coverage.

(** What every instance built by [add] satisfies: the two Maps have each
    key once; every index entry is under a token that is not the empty
    string, is not empty, has each document id once, with a count of at
    least 1 and a stored document for it; every stored document is an object
    kept under its own [id]. *)
Definition wellFormed (this : t) : Prop :=
  NoDup (map fst (invertedIndex this)) /\
  NoDup (map fst (documents this)) /\
  (forall tok docMap, In (tok, docMap) (invertedIndex this) ->
     tok <> EmptyString /\ docMap <> [] /\ NoDup (map fst docMap) /\
     forall id c, In (id, c) docMap ->
       1 <= c /\ exists document, In (id, document) (documents this)) /\
  (forall id document, In (id, document) (documents this) ->
     isDocument document /\ getProp document "id" = id /\ isNullish id = false).

(** A post whose tags are an array of strings. *)
Definition taggedPost : Value :=
  VObj [("id", VStr "t1"); ("tags", VArr [VStr "GitHub Pages"; VStr "welcome"])].

End Invariants.

Module IndexShape.
Import Js MiniSearch Coverage.

(** The part of [wellFormed] that concerns the inverted index, for the ids
    that satisfy [known]. *)
Definition indexOk (known : Value -> Prop) (index : list (string * list (Value * Z))) : Prop :=
  NoDup (map fst index) /\
  forall tok docMap, In (tok, docMap) index ->
    tok <> EmptyString /\ docMap <> [] /\ NoDup (map fst docMap) /\
    forall id c, In (id, c) docMap -> 1 <= c /\ known id.

End IndexShape.

Module BulkLoad.
Import Js MiniSearch.

(** The elements on which [add] throws: objects whose [id] is [undefined] or
    [null]. *)
Definition lacksId (document : Value) : bool :=
  truthy document && (typeOf document =? "object")%string
  && isNullish (getProp document "id").

(** The elements [add] stores: objects with an [id]. *)
Definition hasId (document : Value) : bool :=
  truthy document && (typeOf document =? "object")%string
  && negb (isNullish (getProp document "id")).

(** The last element of the array that [add] stores under the id. *)
Fixpoint lastWithId (items : list Value) (id : Value) : option Value :=
  match items with
  | [] => None
  | document :: rest =>
      match lastWithId rest id with
      | Some later => Some later
      | None =>
          if hasId document && sameValueZero (getProp document "id") id
          then Some document else None
      end
  end.

(** The values [String] and [join] turn into a string.  The conversion of an
    object calls its [toString]; a property [toString] of the object's own
    hides the one of [Object.prototype] and, being data, cannot be called:
    the conversion then throws a [TypeError].  [toStr] is the conversion of
    the values that satisfy [converts]. *)
Fixpoint converts (v : Value) : bool :=
  match v with
  | VObj props => match lookup props "toString" with Some _ => false | None => true end
  | VArr items => forallb converts items
  | _ => true
  end.

(** Every indexed field of the element has a value that converts: the loop
    of [add] over the fields runs to its end. *)
Definition indexable (this : t) (document : Value) : bool :=
  forallb (fun field => converts (getProp document field)) (fields this).

End BulkLoad.

Module SingleLoad.
Import Js MiniSearch Counts BulkLoad.





End SingleLoad.

Module Narrowing.
Import Js MiniSearch.

(** The id is in the group of every one of the groups. *)
Definition inEvery (groups : list (list Match)) (id : Value) : bool :=
  forallb (fun group => setHas sameValueZero (groupIds group) id) groups.

End Narrowing.

Module ControllerFacts.
Import Js MiniSearch Controller.

(** A regular-expression source made of literal characters only is read
    back as the text it matches: a backslash followed by a character of the
    class stands for that character, any other character outside the class
    for itself; an unescaped character of the class or a dangling backslash
    is not a literal. *)
Fixpoint readLiterals (pattern : string) : option string :=
  match pattern with
  | EmptyString => Some EmptyString
  | String c rest =>
      if Ascii.eqb c "\" then
        match rest with
        | String d rest' =>
            if isRegexSpecial d then option_map (String d) (readLiterals rest') else None
        | EmptyString => None
        end
      else if isRegexSpecial c then None
      else option_map (String c) (readLiterals rest)
  end.

(** The token matches somewhere in the text, ignoring case. *)
Fixpoint matchesSomewhere (token s : string) : bool :=
  match s with
  | EmptyString => false
  | String _ rest => matchesAt token s || matchesSomewhere token rest
  end.

(** The timestamp of the result is a number, or a falsy value. *)
Definition plainTimestamp (r : Value) : bool :=
  match getProp r "timestamp" with
  | VNum _ => true
  | v => negb (truthy v)
  end.

(** The five characters [escapeHtml] replaces. *)
Definition isHtmlSpecial (ch : ascii) : bool :=
  existsb (Ascii.eqb ch) ["&"; "<"; ">"; "034"; "'"]%char.

End ControllerFacts.

Module Paragraphs.
Import Js Controller.

(** The text has two newlines in a row somewhere. *)
Fixpoint hasBlankLine (s : string) : bool :=
  match s with
  | String a (String b _ as rest) =>
      (Ascii.eqb a newline && Ascii.eqb b newline) || hasBlankLine rest
  | _ => false
  end.

Definition startsWithNewline (s : string) : bool :=
  match s with
  | String c _ => Ascii.eqb c newline
  | EmptyString => false
  end.

End Paragraphs.

(** ** Properties *)

Import Js MiniSearch Controller Vocabulary Counts Candidates Facets Ordering Markup Scores Listing.

(** *** Equality of values *)

Lemma sameValueZero_eq (a b : Value) : sameValueZero a b = true <-> a = b.
Proof.
  revert b. induction a using Value_ind; intros c; destruct c; simpl;
    try (split; [discriminate | intros E; discriminate E]); try tauto.
  - rewrite Bool.eqb_true_iff. split; congruence.
  - rewrite Z.eqb_eq. split; congruence.
  - rewrite String.eqb_eq. split; congruence.
  - revert items0. induction H as [|x l Hx Hl IH]; intros [|y r];
      try (split; [discriminate | intros E; discriminate E]); try tauto.
    rewrite andb_true_iff, Hx, IH. split.
    + intros [-> E]. injection E as ->. reflexivity.
    + intros E. injection E as -> ->. tauto.
  - revert props0. induction H as [|[k x] l Hx Hl IH]; intros [|[k' y] r];
      try (split; [discriminate | intros E; discriminate E]); try tauto.
    simpl in Hx. rewrite !andb_true_iff, String.eqb_eq, Hx, IH. split.
    + intros [[-> ->] E]. injection E as ->. reflexivity.
    + intros E. injection E as -> -> ->. tauto.
Qed.

Lemma sameValueZero_refl (a : Value) : sameValueZero a a = true.
Proof. now apply sameValueZero_eq. Qed.

Lemma sameValueZero_neq (a b : Value) : a <> b -> sameValueZero a b = false.
Proof.
  intros N. destruct (sameValueZero a b) eqn:E; [|reflexivity].
  now apply sameValueZero_eq in E.
Qed.

(** *** Map and Set *)

Section CollectionFacts.
Context {K V : Type} (keyEq : K -> K -> bool).
Hypothesis keyEq_eq : forall a b, keyEq a b = true <-> a = b.

Lemma keyEq_same (a : K) : keyEq a a = true.
Proof. now apply keyEq_eq. Qed.

Lemma keyEq_other (a b : K) : a <> b -> keyEq a b = false.
Proof.
  intros N. destruct (keyEq a b) eqn:E; [|reflexivity].
  now apply keyEq_eq in E.
Qed.

Lemma mapGet_mapSet_same (m : list (K * V)) (key : K) (v : V) :
  mapGet keyEq (mapSet keyEq m key v) key = Some v.
Proof.
  induction m as [|[k x] m IH]; simpl.
  - now rewrite keyEq_same.
  - destruct (keyEq k key) eqn:E; simpl; rewrite E; [reflexivity | exact IH].
Qed.

Lemma mapGet_mapSet_other (m : list (K * V)) (key key' : K) (v : V) :
  key <> key' -> mapGet keyEq (mapSet keyEq m key v) key' = mapGet keyEq m key'.
Proof.
  intros N. induction m as [|[k x] m IH]; simpl.
  - now rewrite keyEq_other.
  - destruct (keyEq k key) eqn:E; simpl.
    + apply keyEq_eq in E. subst k. now rewrite keyEq_other.
    + now rewrite IH.
Qed.

Lemma setHas_In (s : list K) (key : K) : setHas keyEq s key = true <-> In key s.
Proof.
  unfold setHas. rewrite existsb_exists. split.
  - intros [k [I E]]. apply keyEq_eq in E. now subst.
  - intros I. exists key. split; [exact I | apply keyEq_same].
Qed.

Lemma setAdd_In (s : list K) (key x : K) :
  In x (setAdd keyEq s key) <-> In x s \/ x = key.
Proof.
  unfold setAdd. destruct (setHas keyEq s key) eqn:E.
  - apply setHas_In in E. split; [tauto | intros [I | ->]; assumption].
  - rewrite in_app_iff. simpl. intuition congruence.
Qed.
End CollectionFacts.

Lemma mapGet_None {V : Type} (m : list (string * V)) (key : string) :
  mapGet String.eqb m key = None <-> ~ In key (map fst m).
Proof.
  induction m as [|[k v] m IH]; simpl; [tauto|].
  destruct (String.eqb_spec k key) as [-> | N].
  - split; [discriminate | tauto].
  - rewrite IH. tauto.
Qed.

(** *** search: a term without a match *)

Lemma lookupTerm_unmatched (this : t) (prefixMode : bool) (term : string) :
  unmatched this prefixMode term <-> lookupTerm this term prefixMode = [].
Proof.
  unfold unmatched, lookupTerm, indexedTokens. destruct prefixMode; simpl.
  - induction (invertedIndex this) as [|[tok entry] index IH]; simpl; [tauto|].
    destruct (startsWith tok term) eqn:E; simpl.
    + split; [|discriminate]. intros H. rewrite (H tok) in E; [discriminate | now left].
    + rewrite <- IH. split.
      * intros H tok' I. apply H. now right.
      * intros H tok' [<- | I]; [exact E | now apply H].
  - rewrite <- mapGet_None.
    destruct (mapGet String.eqb (invertedIndex this) term); split; congruence.
Qed.

(** C1.  Whenever one term of a non-empty tokenized query resolves to no
    index entry (no such token with prefix mode off, no indexed token that
    starts with it with prefix mode on), [search] returns the empty list,
    whatever the other terms match. *)
Theorem search_empty_when_a_term_is_unmatched
  (this : t) (query : Value) (options : Options) (term : string) :
  In term (tokenize query) ->
  unmatched this (prefix options) term ->
  search this query options = [].
Proof.
  intros I U. unfold search.
  destruct (tokenize query) as [|first others] eqn:T; [contradiction|].
  set (terms := first :: others) in *.
  set (groups := map (fun term => lookupTerm this term (prefix options)) terms).
  assert (E : existsb (fun group => match group with [] => true | _ => false end)
                      groups = true).
  { apply existsb_exists. exists (lookupTerm this term (prefix options)). split.
    - unfold groups. apply in_map_iff. now exists term.
    - apply lookupTerm_unmatched in U. now rewrite U. }
  now rewrite E.
Qed.

Lemma search_empty_when_a_term_is_unmatched_witness :
  In "zebra" (tokenize (VStr "Hello zebra")) /\
  unmatched helloIndex (prefix (mkOptions None true)) "zebra" /\
  search helloIndex (VStr "Hello zebra") (mkOptions None true) = [].
Proof.
  assert (I : In "zebra" (tokenize (VStr "Hello zebra"))).
  { vm_compute. right. left. reflexivity. }
  assert (U : unmatched helloIndex (prefix (mkOptions None true)) "zebra").
  { intros tok. vm_compute. intros [<- | [<- | [<- | []]]]; reflexivity. }
  split; [exact I | split; [exact U|]].
  exact (search_empty_when_a_term_is_unmatched helloIndex (VStr "Hello zebra")
           (mkOptions None true) "zebra" I U).
Defined.

(** *** add and addAll *)

(** C10.  [add] called with [null], [undefined] or a value that is not an
    object returns normally and leaves the instance (document store and
    inverted index) as it was. *)
Theorem add_ignores_what_is_not_an_object (this : t) (v : Value) :
  v = VNull \/ v = VUndefined \/ typeOf v <> "object" ->
  add this v = Normal this.
Proof.
  intros H. unfold add.
  destruct v; simpl in *; try reflexivity;
    try (destruct H as [H | [H | H]]; [discriminate H | discriminate H | now elim H]).
  - now rewrite orb_true_r.
  - now rewrite orb_true_r.
  - now rewrite orb_true_r.
Qed.

Lemma add_ignores_what_is_not_an_object_witness :
  (VStr "post" = VNull \/ VStr "post" = VUndefined \/ typeOf (VStr "post") <> "object") /\
  add helloIndex (VStr "post") = Normal helloIndex.
Proof.
  assert (H : VStr "post" = VNull \/ VStr "post" = VUndefined
              \/ typeOf (VStr "post") <> "object").
  { right. right. simpl. discriminate. }
  split; [exact H|].
  exact (add_ignores_what_is_not_an_object helloIndex (VStr "post") H).
Defined.

Lemma add_without_id (this : t) (document : Value) :
  isDocument document ->
  isNullish (getProp document "id") = true ->
  add this document = Throw this missingId.
Proof.
  intros [T O] N. unfold add. rewrite T, O, N. reflexivity.
Qed.

Lemma addEach_app (this : t) (before rest : list Value) :
  addEach this (before ++ rest) =
  match addEach this before with
  | Normal this' => addEach this' rest
  | Throw this' message => Throw this' message
  end.
Proof.
  revert this. induction before as [|d before IH]; intros this; simpl.
  - reflexivity.
  - destruct (add this d) as [this' | this' message]; [apply IH | reflexivity].
Qed.

(** C5.  [add] on a document whose [id] is [undefined] or [null] throws the
    missing-id error and leaves the instance untouched; inside [addAll] the
    error goes out of the loop at that document: the instance is the one the
    documents before it built, and the documents after it are never added. *)
Theorem add_without_id_throws_and_stops_addAll
  (this this' : t) (before after : list Value) (document : Value) :
  isDocument document ->
  getProp document "id" = VUndefined \/ getProp document "id" = VNull ->
  addAll this (VArr before) = Normal this' ->
  add this' document = Throw this' missingId /\
  addAll this (VArr (before ++ document :: after)) = Throw this' missingId.
Proof.
  intros D N B.
  assert (A : add this' document = Throw this' missingId).
  { apply add_without_id; [exact D|]. destruct N as [-> | ->]; reflexivity. }
  split; [exact A|].
  simpl in *. rewrite addEach_app, B. simpl. now rewrite A.
Qed.

Lemma add_without_id_throws_and_stops_addAll_witness :
  isDocument (VObj [("title", VStr "No id")]) /\
  (getProp (VObj [("title", VStr "No id")]) "id" = VUndefined
   \/ getProp (VObj [("title", VStr "No id")]) "id" = VNull) /\
  addAll (create (Some ["title"])) (VArr [helloWorld])
  = Normal (built (addAll (create (Some ["title"])) (VArr [helloWorld]))) /\
  addAll (create (Some ["title"]))
         (VArr ([helloWorld] ++ VObj [("title", VStr "No id")] :: [helloThere]))
  = Throw (built (addAll (create (Some ["title"])) (VArr [helloWorld]))) missingId.
Proof.
  assert (D : isDocument (VObj [("title", VStr "No id")])) by (split; reflexivity).
  assert (N : getProp (VObj [("title", VStr "No id")]) "id" = VUndefined
              \/ getProp (VObj [("title", VStr "No id")]) "id" = VNull)
    by (left; reflexivity).
  assert (B : addAll (create (Some ["title"])) (VArr [helloWorld])
              = Normal (built (addAll (create (Some ["title"])) (VArr [helloWorld]))))
    by reflexivity.
  split; [exact D | split; [exact N | split; [exact B|]]].
  exact (proj2 (add_without_id_throws_and_stops_addAll _ _ [helloWorld] [helloThere]
                  _ D N B)).
Defined.

(** *** add: what one call does to the counts *)

Lemma addToken_countIn (id : Value) (index : list (string * list (Value * Z)))
  (tok tok' : string) (id' : Value) :
  countIn (addToken id index tok) tok' id' =
  countIn index tok' id' + (if (tok =? tok')%string && sameValueZero id id' then 1 else 0).
Proof.
  unfold countIn, addToken.
  destruct (String.eqb_spec tok tok') as [<- | Ntok]; simpl.
  - rewrite (mapGet_mapSet_same String.eqb String.eqb_eq).
    destruct (sameValueZero id id') eqn:Eid.
    + apply sameValueZero_eq in Eid. subst id'.
      rewrite (mapGet_mapSet_same sameValueZero sameValueZero_eq).
      destruct (mapGet String.eqb index tok) as [docMap|]; simpl.
      * destruct (mapGet sameValueZero docMap id) as [c|]; simpl; [|reflexivity].
        destruct (Z.eqb_spec c 0) as [-> | _]; reflexivity.
      * reflexivity.
    + assert (N : id <> id') by (intros ->; now rewrite sameValueZero_refl in Eid).
      rewrite (mapGet_mapSet_other sameValueZero sameValueZero_eq) by exact N.
      destruct (mapGet String.eqb index tok) as [docMap|]; simpl; lia.
  - rewrite (mapGet_mapSet_other String.eqb String.eqb_eq) by exact Ntok. lia.
Qed.

Lemma addTokens_countIn (id : Value) (tokens : list string)
  (index : list (string * list (Value * Z))) (tok' : string) (id' : Value) :
  countIn (fold_left (addToken id) tokens index) tok' id' =
  countIn index tok' id' + (if sameValueZero id id' then occurrences tok' tokens else 0).
Proof.
  unfold occurrences. revert index.
  induction tokens as [|tok tokens IH]; intros index; simpl fold_left.
  - simpl. destruct (sameValueZero id id'); lia.
  - rewrite IH, addToken_countIn. simpl count_occ.
    destruct (string_dec tok tok') as [-> | N].
    + rewrite String.eqb_refl. simpl. destruct (sameValueZero id id'); lia.
    + apply String.eqb_neq in N. rewrite N. simpl. lia.
Qed.

Lemma addFields_countIn (id document : Value) (fs : list string)
  (index : list (string * list (Value * Z))) (tok' : string) (id' : Value) :
  countIn (fold_left (addField id document) fs index) tok' id' =
  countIn index tok' id'
  + (if sameValueZero id id'
     then occurrences tok' (flat_map (fieldTokens document) fs) else 0).
Proof.
  revert index. induction fs as [|field fs IH]; intros index; simpl fold_left.
  - unfold occurrences. simpl. destruct (sameValueZero id id'); lia.
  - rewrite IH. unfold addField. rewrite addTokens_countIn.
    simpl flat_map. unfold occurrences. rewrite count_occ_app.
    destruct (sameValueZero id id'); lia.
Qed.

(** One [add] of a document with an id: it returns normally, the store maps
    the id to this document, and each count of this id grows by the number of
    occurrences of the token in the document; other ids keep their counts. *)
Lemma add_effect (this : t) (document : Value) :
  isDocument document ->
  isNullish (getProp document "id") = false ->
  exists this',
    add this document = Normal this' /\
    fields this' = fields this /\
    mapGet sameValueZero (documents this') (getProp document "id") = Some document /\
    (forall id', id' <> getProp document "id" ->
       mapGet sameValueZero (documents this') id' = mapGet sameValueZero (documents this) id') /\
    (forall tok, count this' tok (getProp document "id") =
                 count this tok (getProp document "id")
                 + occurrences tok (documentTokens this document)) /\
    (forall tok id', id' <> getProp document "id" -> count this' tok id' = count this tok id').
Proof.
  intros [T O] N. unfold add. rewrite T, O, N. simpl.
  eexists. split; [reflexivity|]. simpl. repeat split.
  - apply (mapGet_mapSet_same sameValueZero sameValueZero_eq).
  - intros id' D. apply (mapGet_mapSet_other sameValueZero sameValueZero_eq). congruence.
  - intros tok. unfold count. simpl. rewrite addFields_countIn.
    now rewrite sameValueZero_refl.
  - intros tok id' D. unfold count. simpl. rewrite addFields_countIn.
    rewrite sameValueZero_neq by congruence. lia.
Qed.

(** C8.  Adding a second document under an id that is already stored
    replaces the stored document and keeps the counts of the first [add]:
    every count of that id is what it was before both calls, plus the
    occurrences of the token in the first document, plus its occurrences in
    the second. *)
Theorem readd_overwrites_document_and_accumulates_counts
  (this : t) (first second : Value) :
  isDocument first -> isDocument second ->
  isNullish (getProp first "id") = false ->
  getProp second "id" = getProp first "id" ->
  exists this1 this2,
    add this first = Normal this1 /\
    add this1 second = Normal this2 /\
    mapGet sameValueZero (documents this1) (getProp first "id") = Some first /\
    mapGet sameValueZero (documents this2) (getProp first "id") = Some second /\
    forall tok,
      count this2 tok (getProp first "id") =
      count this tok (getProp first "id")
      + occurrences tok (documentTokens this first)
      + occurrences tok (documentTokens this second).
Proof.
  intros D1 D2 N E.
  destruct (add_effect this first D1 N) as (this1 & A1 & F1 & S1 & _ & K1 & _).
  assert (N2 : isNullish (getProp second "id") = false) by now rewrite E.
  destruct (add_effect this1 second D2 N2) as (this2 & A2 & F2 & S2 & _ & K2 & _).
  exists this1, this2. rewrite E in S2, K2.
  repeat split; try assumption.
  intros tok. rewrite K2, K1. unfold documentTokens. now rewrite F1.
Qed.

Lemma readd_overwrites_document_and_accumulates_counts_witness :
  isDocument helloWorld /\
  isNullish (getProp helloWorld "id") = false /\
  getProp helloWorld "id" = getProp helloWorld "id" /\
  exists this1 this2,
    add helloIndex helloWorld = Normal this1 /\
    add this1 helloWorld = Normal this2 /\
    mapGet sameValueZero (documents this1) (getProp helloWorld "id") = Some helloWorld /\
    mapGet sameValueZero (documents this2) (getProp helloWorld "id") = Some helloWorld /\
    forall tok,
      count this2 tok (getProp helloWorld "id") =
      count helloIndex tok (getProp helloWorld "id")
      + occurrences tok (documentTokens helloIndex helloWorld)
      + occurrences tok (documentTokens helloIndex helloWorld).
Proof.
  assert (D : isDocument helloWorld) by (split; reflexivity).
  assert (N : isNullish (getProp helloWorld "id") = false) by reflexivity.
  split; [exact D | split; [exact N | split; [reflexivity|]]].
  exact (readd_overwrites_document_and_accumulates_counts
           helloIndex helloWorld helloWorld D D N eq_refl).
Defined.

(** The count of "hello" for document "a" is 1 after the bulk load and 3
    after two more [add]s of the same document. *)
Example readd_counts_three :
  count helloIndex "hello" (VStr "a") = 1 /\
  count (built (add (built (add helloIndex helloWorld)) helloWorld)) "hello" (VStr "a") = 3.
Proof. split; reflexivity. Qed.

(** *** lookupTerm and intersection *)

Lemma lookupTerm_prefix_In (this : t) (term : string) (m : Match) :
  In m (lookupTerm this term true) <->
  In (token m, docs m) (invertedIndex this) /\ startsWith (token m) term = true.
Proof.
  unfold lookupTerm. simpl. rewrite in_flat_map. split.
  - intros [[tok entry] [I H]]. simpl in H.
    destruct (startsWith tok term) eqn:E; [|contradiction].
    destruct H as [<- | []]. simpl. now split.
  - intros [I E]. exists (token m, docs m). split; [exact I|].
    simpl. rewrite E. left. now destruct m.
Qed.

Lemma lookupTerm_exact_In (this : t) (term : string) (m : Match) :
  In m (lookupTerm this term false) <->
  token m = term /\ mapGet String.eqb (invertedIndex this) term = Some (docs m).
Proof.
  unfold lookupTerm. simpl.
  destruct (mapGet String.eqb (invertedIndex this) term) as [entry|]; simpl.
  - split.
    + intros [<- | []]. now split.
    + intros [E1 E2]. left. destruct m. simpl in *. congruence.
  - split; [contradiction | intros [_ E]; discriminate E].
Qed.

Lemma addKeys_In (keys ids : list Value) (x : Value) :
  In x (fold_left (setAdd sameValueZero) keys ids) <-> In x ids \/ In x keys.
Proof.
  revert ids. induction keys as [|k keys IH]; intros ids; simpl; [tauto|].
  rewrite IH, (setAdd_In sameValueZero sameValueZero_eq). intuition congruence.
Qed.

Lemma collectIds_In (group : list Match) (ids : list Value) (x : Value) :
  In x (fold_left (fun ids m => fold_left (setAdd sameValueZero) (map fst (docs m)) ids)
                  group ids) <->
  In x ids \/ exists m, In m group /\ In x (map fst (docs m)).
Proof.
  revert ids. induction group as [|m group IH]; intros ids; simpl.
  - split; [tauto | intros [I | [m [[] _]]]; exact I].
  - rewrite IH, addKeys_In. split.
    + intros [[I | I] | [m' [I K]]]; [tauto | right; exists m; tauto | right; exists m'; tauto].
    + intros [I | [m' [[<- | I] K]]]; [tauto | tauto | right; exists m'; tauto].
Qed.

(** The ids of a group are the union of the key sets of its matches. *)
Lemma groupIds_In (group : list Match) (x : Value) :
  In x (groupIds group) <-> exists m, In m group /\ In x (map fst (docs m)).
Proof.
  unfold groupIds. rewrite collectIds_In. simpl. tauto.
Qed.

Lemma keepCommon_In (ids acc next : list Value) (x : Value) :
  In x (fold_left (fun next id =>
                     if setHas sameValueZero ids id
                     then setAdd sameValueZero next id else next) acc next) <->
  In x next \/ (In x acc /\ In x ids).
Proof.
  revert next. induction acc as [|a acc IH]; intros next; simpl; [tauto|].
  rewrite IH. destruct (setHas sameValueZero ids a) eqn:E.
  - apply (setHas_In sameValueZero sameValueZero_eq) in E.
    rewrite (setAdd_In sameValueZero sameValueZero_eq). intuition congruence.
  - assert (N : ~ In a ids).
    { intros I. apply (setHas_In sameValueZero sameValueZero_eq) in I. congruence. }
    intuition congruence.
Qed.

Lemma intersect_Some (groups : list (list Match)) (acc : list Value) :
  exists result,
    intersect (Some acc) groups = Some result /\
    forall x, In x result <-> In x acc /\ forall group, In group groups -> In x (groupIds group).
Proof.
  revert acc. induction groups as [|group groups IH]; intros acc; simpl.
  - exists acc. split; [reflexivity|]. intros x. split; [|tauto]. intros I. split; [exact I | tauto].
  - set (next := fold_left _ acc []).
    assert (Hnext : forall x, In x next <-> In x acc /\ In x (groupIds group)).
    { intros x. unfold next. rewrite keepCommon_In. simpl. tauto. }
    destruct next as [|n next'] eqn:En.
    + exists []. split; [reflexivity|]. intros x. split; [contradiction|].
      intros [I H]. apply (Hnext x). split; [exact I | apply H; now left].
    + destruct (IH (n :: next')) as [result [E H]]. exists result. split; [exact E|].
      intros x. rewrite H, Hnext. split.
      * intros [[I G] R]. split; [exact I|]. intros g [<- | Ig]; [exact G | now apply R].
      * intros [I R]. split; [split; [exact I | apply R; now left]|].
        intros g Ig. apply R. now right.
Qed.

(** [intersection] keeps the ids that every group has; with no group at all
    it is empty. *)
Lemma intersection_In (groups : list (list Match)) (x : Value) :
  In x (intersection groups) <->
  groups <> [] /\ forall group, In group groups -> In x (groupIds group).
Proof.
  unfold intersection. destruct groups as [|group groups]; simpl.
  - split; [contradiction | intros [N _]; now elim N].
  - destruct (groupIds group) as [|i ids] eqn:Eg.
    + split; [contradiction|]. intros [_ H].
      specialize (H group (or_introl eq_refl)). now rewrite Eg in H.
    + destruct (intersect_Some groups (i :: ids)) as [result [E H]]. rewrite E, H.
      rewrite <- Eg. split.
      * intros [I R]. split; [discriminate|]. intros g [<- | Ig]; [exact I | now apply R].
      * intros [_ R]. split; [apply R; now left|]. intros g Ig. apply R. now right.
Qed.

(** C6.  In prefix mode a term matches exactly the index entries whose
    token starts with it; the ids of the tokens one term matched are united,
    and an id is a candidate of [search] exactly when it lies in the union of
    every term of the query. *)
Theorem prefix_matches_are_united_then_intersected (this : t) :
  (forall term m,
     In m (lookupTerm this term true) <->
     In (token m, docs m) (invertedIndex this) /\ startsWith (token m) term = true) /\
  (forall group id,
     In id (groupIds group) <-> exists m, In m group /\ In id (map fst (docs m))) /\
  (forall terms id,
     In id (candidateIds this terms true) <->
     terms <> [] /\
     forall term, In term terms ->
       exists tok docMap,
         In (tok, docMap) (invertedIndex this) /\ startsWith tok term = true /\
         In id (map fst docMap)).
Proof.
  split; [apply lookupTerm_prefix_In | split; [apply groupIds_In|]].
  intros terms id. unfold candidateIds. rewrite intersection_In. split.
  - intros [N H]. split; [destruct terms; [now elim N | discriminate]|].
    intros term I.
    assert (G : In id (groupIds (lookupTerm this term true))).
    { apply H. apply in_map_iff. now exists term. }
    apply groupIds_In in G. destruct G as [m [Im K]].
    apply lookupTerm_prefix_In in Im. destruct Im as [Ie S].
    now exists (token m), (docs m).
  - intros [N H]. split; [destruct terms; [now elim N | discriminate]|].
    intros group Ig. apply in_map_iff in Ig. destruct Ig as [term [<- I]].
    destruct (H term I) as (tok & docMap & Ie & S & K).
    apply groupIds_In. exists (mkMatch tok docMap). split; [|exact K].
    apply lookupTerm_prefix_In. now split.
Qed.

(** "blo" matches "blog" and "blogging"; their documents p1 and p2 are
    united, and "blo daily" keeps p2 only. *)
Example blo_matches_blog_and_blogging :
  map token (lookupTerm blogIndex "blo" true) = ["blog"; "blogging"] /\
  candidateIds blogIndex ["blo"] true = [VStr "p1"; VStr "p2"] /\
  candidateIds blogIndex ["blo"; "daily"] true = [VStr "p2"].
Proof. repeat split; reflexivity. Qed.

(** *** filterDocument *)

Lemma selected_cases (element : option string) :
  (truthy (selected element) = false /\ forall v, ~ chosen element v) \/
  (exists v, chosen element v /\ selected element = VStr v /\ truthy (VStr v) = true).
Proof.
  destruct element as [value|]; simpl.
  - destruct (String.eqb_spec value EmptyString) as [-> | N].
    + left. split; [reflexivity|]. intros v [E Nv]. congruence.
    + right. exists value. repeat split; try assumption. simpl.
      apply String.eqb_neq in N. now rewrite N.
  - left. split; [reflexivity|]. intros v [E _]. discriminate E.
Qed.

Lemma chosen_unique (element : option string) (v w : string) :
  chosen element v -> chosen element w -> v = w.
Proof. intros [E _] [E' _]. congruence. Qed.

Lemma strictEquals_string (a : Value) (v : string) :
  strictEquals a (VStr v) = true <-> a = VStr v.
Proof.
  destruct a; simpl; try (split; [discriminate | intros E; discriminate E]).
  rewrite String.eqb_eq. split; congruence.
Qed.

Lemma includes_string (items : list Value) (v : string) :
  includes items (VStr v) = true <-> In (VStr v) items.
Proof.
  unfold includes. rewrite existsb_exists. split.
  - intros [item [I E]]. apply sameValueZero_eq in E. now subst.
  - intros I. exists (VStr v). split; [exact I | apply sameValueZero_refl].
Qed.

Lemma language_check (element : option string) (doc : Value) :
  truthy (selected element)
  && negb (strictEquals (getProp doc "language") (selected element)) = false <->
  (forall v, chosen element v -> getProp doc "language" = VStr v).
Proof.
  destruct (selected_cases element) as [[U N] | [v [C [-> T]]]].
  - rewrite U. simpl. split; [|reflexivity]. intros _ v C. now elim (N v).
  - rewrite T. simpl. rewrite negb_false_iff, strictEquals_string. split.
    + intros E w Cw. now rewrite (chosen_unique _ _ _ Cw C).
    + intros H. now apply H.
Qed.

Lemma type_check (element : option string) (doc : Value) :
  truthy (selected element)
  && negb (strictEquals (orElse (getProp doc "type") (VStr EmptyString))
                        (selected element)) = false <->
  (forall v, chosen element v -> documentType doc = VStr v).
Proof.
  destruct (selected_cases element) as [[U N] | [v [C [-> T]]]].
  - rewrite U. simpl. split; [|reflexivity]. intros _ v C. now elim (N v).
  - rewrite T. simpl. rewrite negb_false_iff, strictEquals_string.
    assert (E : orElse (getProp doc "type") (VStr EmptyString) = VStr v
                <-> documentType doc = VStr v).
    { unfold orElse, documentType. destruct C as [_ Nv].
      destruct (getProp doc "type") as [| |b|n|s|items|props]; simpl; try tauto.
      - destruct b; split; congruence.
      - destruct (Z.eqb_spec n 0); simpl; split; congruence.
      - destruct (String.eqb_spec s EmptyString) as [-> | Ns]; simpl; tauto. }
    rewrite E. split.
    + intros H w Cw. now rewrite (chosen_unique _ _ _ Cw C).
    + intros H. now apply H.
Qed.

Lemma tag_check (element : option string) (doc : Value) :
  truthy (selected element)
  && negb (isArray (getProp doc "tags")
           && includes (asArray (getProp doc "tags")) (selected element)) = false <->
  (forall v, chosen element v ->
     exists items, getProp doc "tags" = VArr items /\ In (VStr v) items).
Proof.
  destruct (selected_cases element) as [[U N] | [v [C [-> T]]]].
  - rewrite U. simpl. split; [|reflexivity]. intros _ v C. now elim (N v).
  - rewrite T. simpl. rewrite negb_false_iff, andb_true_iff, includes_string.
    assert (E : isArray (getProp doc "tags") = true /\ In (VStr v) (asArray (getProp doc "tags"))
                <-> exists items, getProp doc "tags" = VArr items /\ In (VStr v) items).
    { destruct (getProp doc "tags") as [| |b|n|s|items|props]; simpl;
        try (split; [intros [D _]; discriminate D | intros [items [D _]]; discriminate D]).
      split.
      - intros [_ I]. now exists items.
      - intros [items' [D I]]. injection D as ->. now split. }
    rewrite E. split.
    + intros H w Cw. now rewrite (chosen_unique _ _ _ Cw C).
    + intros H. now apply H.
Qed.

Lemma year_check (element : option string) (doc : Value) :
  (if truthy (selected element) then
     if truthy (getProp doc "date_iso") then
       match getProp doc "date_iso" with
       | VStr s =>
           if negb (strictEquals (VStr (substring 0 4 s)) (selected element))
           then Returns false else Returns true
       | _ => TypeError
       end
     else if negb (strictEquals (VStr EmptyString) (selected element))
          then Returns false else Returns true
   else Returns true) = Returns true <->
  (forall v, chosen element v -> documentYear doc = Some v).
Proof.
  destruct (selected_cases element) as [[U N] | [v [C [-> T]]]].
  - rewrite U. split; [|reflexivity]. intros _ v C. now elim (N v).
  - rewrite T.
    assert (E : (if truthy (getProp doc "date_iso") then
                   match getProp doc "date_iso" with
                   | VStr s =>
                       if negb (strictEquals (VStr (substring 0 4 s)) (VStr v))
                       then Returns false else Returns true
                   | _ => TypeError
                   end
                 else if negb (strictEquals (VStr EmptyString) (VStr v))
                      then Returns false else Returns true) = Returns true
                <-> documentYear doc = Some v).
    { unfold documentYear. destruct C as [_ Nv].
      destruct (getProp doc "date_iso") as [| |b|n|s|items|props]; simpl.
      - apply String.eqb_neq in Nv. rewrite String.eqb_sym in Nv. simpl in Nv.
        destruct v; [discriminate Nv|]. simpl. split; discriminate.
      - destruct v; [now elim Nv|]. simpl. split; discriminate.
      - destruct b; [split; discriminate|].
        destruct v; [now elim Nv|]. simpl. split; discriminate.
      - destruct (Z.eqb_spec n 0); simpl; [|split; discriminate].
        destruct v; [now elim Nv|]. simpl. split; discriminate.
      - destruct (String.eqb_spec s EmptyString) as [-> | Ns]; simpl.
        + destruct v; [now elim Nv|]. simpl. split; [discriminate|].
          intros D. discriminate D.
        + destruct (String.eqb_spec (substring 0 4 s) v) as [-> | Nsub]; simpl.
          * tauto.
          * split; [discriminate | congruence].
      - split; discriminate.
      - split; discriminate. }
    rewrite E. split.
    + intros H w Cw. now rewrite (chosen_unique _ _ _ Cw C).
    + intros H. now apply H.
Qed.

(** C9.  For a document (a truthy value), [filterDocument] returns [true]
    exactly when every filter that is set matches it: the language by
    equality, the type by equality with the document's type (the empty string
    when absent), the tag by membership in the [tags] array, the year by
    equality with the first four characters of [date_iso].  A filter that is
    not set constrains nothing, so with none set the document is accepted. *)
Theorem filterDocument_accepts_iff_set_facets_match
  (filterElements : FilterElements) (doc : Value) :
  truthy doc = true ->
  (filterDocument filterElements doc = Returns true <-> facetsMatch filterElements doc) /\
  (noFacet filterElements -> filterDocument filterElements doc = Returns true).
Proof.
  intros T.
  assert (M : filterDocument filterElements doc = Returns true
              <-> facetsMatch filterElements doc).
  { unfold filterDocument, facetsMatch. rewrite T. cbv zeta. simpl negb. cbv iota.
    rewrite <- language_check, <- type_check, <- tag_check, <- year_check.
    destruct (truthy (selected (language filterElements)) && _);
      [split; [discriminate | intros [D _]; discriminate D]|].
    destruct (truthy (selected (type filterElements)) && _);
      [split; [discriminate | intros [_ [D _]]; discriminate D]|].
    destruct (truthy (selected (tag filterElements)) && _);
      [split; [discriminate | intros [_ [_ [D _]]]; discriminate D]|].
    tauto. }
  split; [exact M|].
  intros N. apply M. unfold facetsMatch.
  repeat split; intros v C; destruct (N v) as (N1 & N2 & N3 & N4); contradiction.
Qed.

Lemma filterDocument_accepts_iff_set_facets_match_witness :
  truthy post2024 = true /\
  (filterDocument (mkFilters None None None (Some "2024")) post2024 = Returns true
   <-> facetsMatch (mkFilters None None None (Some "2024")) post2024) /\
  (noFacet (mkFilters None None None (Some "2024")) ->
   filterDocument (mkFilters None None None (Some "2024")) post2024 = Returns true).
Proof.
  split; [reflexivity|].
  exact (filterDocument_accepts_iff_set_facets_match
           (mkFilters None None None (Some "2024")) post2024 eq_refl).
Defined.

(** The year scenario of the specification, and the composition of two
    filters. *)
Example year_filter_2024 :
  filterDocument (mkFilters None None None (Some "2024")) post2023 = Returns false /\
  filterDocument (mkFilters None None None (Some "2024")) post2024 = Returns true /\
  filterDocument (mkFilters (Some "en") None (Some "rocq") None)
    (VObj [("language", VStr "en"); ("tags", VArr [VStr "coq"; VStr "rocq"])]) = Returns true /\
  filterDocument (mkFilters (Some "en") None (Some "rocq") None)
    (VObj [("language", VStr "en"); ("tags", VArr [VStr "coq"])]) = Returns false.
Proof. repeat split; reflexivity. Qed.

(** *** Array.prototype.sort with a comparator that follows a rank *)

Lemma ranksBelow_spec (p q : Z * Z) :
  ranksBelow p q = true <-> fst p < fst q \/ (fst p = fst q /\ snd p < snd q).
Proof.
  unfold ranksBelow. rewrite orb_true_iff, andb_true_iff, !Z.ltb_lt, Z.eqb_eq. tauto.
Qed.

Lemma ranksBelow_false (p q : Z * Z) :
  ranksBelow p q = false <-> fst q < fst p \/ (fst p = fst q /\ snd q <= snd p).
Proof.
  rewrite <- not_true_iff_false, ranksBelow_spec. lia.
Qed.

Lemma sameRank_spec (p q : Z * Z) : sameRank p q = true <-> p = q.
Proof.
  unfold sameRank. rewrite andb_true_iff, !Z.eqb_eq.
  destruct p, q; simpl. split; [intros [-> ->]; reflexivity | intros E; now inversion E].
Qed.

Section SortFacts.
Context {A : Type} (compare : A -> A -> Number) (rank : A -> Z * Z).

Lemma insertSorted_perm (x : A) (l : list A) :
  Permutation (x :: l) (insertSorted compare x l).
Proof.
  induction l as [|y l IH]; simpl; [reflexivity|].
  destruct (comesAfter compare x y); [|reflexivity].
  rewrite perm_swap. now apply perm_skip.
Qed.

Lemma arraySort_perm (l : list A) : Permutation l (arraySort compare l).
Proof.
  induction l as [|x l IH]; simpl; [reflexivity|].
  rewrite <- insertSorted_perm. now apply perm_skip.
Qed.

Lemma insertSorted_descending (x : A) (l : list A) :
  follows compare rank (x :: l) -> descending rank l -> descending rank (insertSorted compare x l).
Proof.
  unfold descending. intros F S. induction S as [|y l S IH Hy]; simpl.
  - constructor; constructor.
  - rewrite (F x y) by (simpl; tauto).
    destruct (ranksBelow (rank x) (rank y)) eqn:E.
    + constructor.
      * apply IH. intros a b Ia Ib. apply F; simpl in *; tauto.
      * rewrite Forall_forall in *. intros z Iz.
        apply (Permutation_in _ (Permutation_sym (insertSorted_perm x l))) in Iz.
        destruct Iz as [<- | Iz]; [|now apply Hy].
        apply ranksBelow_spec in E. apply ranksBelow_false. lia.
    + constructor; [now constructor|].
      constructor; [exact E|].
      rewrite Forall_forall in *. intros z Iz. specialize (Hy z Iz).
      apply ranksBelow_false in E, Hy. apply ranksBelow_false. lia.
Qed.

Lemma arraySort_descending (l : list A) :
  follows compare rank l -> descending rank (arraySort compare l).
Proof.
  induction l as [|x l IH]; intros F; simpl.
  - constructor.
  - apply insertSorted_descending.
    + intros a b Ia Ib. apply F.
      * destruct Ia as [<- | Ia]; [now left | right].
        now apply (Permutation_in _ (Permutation_sym (arraySort_perm l))).
      * destruct Ib as [<- | Ib]; [now left | right].
        now apply (Permutation_in _ (Permutation_sym (arraySort_perm l))).
    + apply IH. intros a b Ia Ib. apply F; now right.
Qed.

Lemma insertSorted_filter (x : A) (l : list A) (k : Z * Z) :
  follows compare rank (x :: l) ->
  filter (fun a => sameRank (rank a) k) (insertSorted compare x l)
  = filter (fun a => sameRank (rank a) k) (x :: l).
Proof.
  intros F. induction l as [|y l IH]; [reflexivity|].
  simpl insertSorted. rewrite (F x y) by (simpl; tauto).
  destruct (ranksBelow (rank x) (rank y)) eqn:E; [|reflexivity].
  simpl filter at 1. rewrite IH by (intros a b Ia Ib; apply F; simpl in *; tauto).
  simpl. destruct (sameRank (rank x) k) eqn:Ex; [|reflexivity].
  destruct (sameRank (rank y) k) eqn:Ey; [|reflexivity].
  apply sameRank_spec in Ex, Ey. apply ranksBelow_spec in E. rewrite Ex, Ey in E. lia.
Qed.

(** With a comparator that follows a rank, [sort] returns the elements in
    descending rank and keeps the order of elements of equal rank. *)
Lemma arraySort_stable (l : list A) :
  follows compare rank l ->
  descending rank (arraySort compare l) /\ stableOrderOf rank l (arraySort compare l).
Proof.
  intros F. split; [now apply arraySort_descending|].
  split; [apply arraySort_perm|]. intros k.
  induction l as [|x l IH]; [reflexivity|]. simpl arraySort.
  rewrite insertSorted_filter.
  - simpl. rewrite IH by (intros a b Ia Ib; apply F; now right). reflexivity.
  - intros a b Ia Ib. apply F.
    + destruct Ia as [<- | Ia]; [now left | right].
      now apply (Permutation_in _ (Permutation_sym (arraySort_perm l))).
    + destruct Ib as [<- | Ib]; [now left | right].
      now apply (Permutation_in _ (Permutation_sym (arraySort_perm l))).
Qed.
End SortFacts.

(** *** escapeHtml and highlightText *)

Lemma occursIn_app (c : ascii) (s u : string) :
  occursIn c (s ++ u) = occursIn c s || occursIn c u.
Proof.
  induction s as [|x s IH]; simpl; [reflexivity|]. now rewrite IH, orb_assoc.
Qed.










(** *** search: scores *)

Lemma lookup_setProp_other (props : list (string * Value)) (key key' : string) (v : Value) :
  key <> key' -> lookup (setProp props key v) key' = lookup props key'.
Proof.
  intros N. induction props as [|[k x] props IH]; simpl.
  - apply String.eqb_neq in N. now rewrite N.
  - destruct (String.eqb_spec k key) as [-> | Nk]; simpl.
    + apply String.eqb_neq in N. now rewrite N.
    + now rewrite IH.
Qed.

Lemma lookup_assign_absent (source target : list (string * Value)) (key : string) :
  lookup source key = None ->
  lookup (fold_left (fun t kv => setProp t (fst kv) (snd kv)) source target) key
  = lookup target key.
Proof.
  revert target. induction source as [|[k x] source IH]; intros target H; simpl in *.
  - reflexivity.
  - destruct (String.eqb_spec k key) as [-> | N]; [discriminate H|].
    rewrite IH by exact H. now apply lookup_setProp_other.
Qed.

(** A document without a [score] of its own carries the score [search]
    computed. *)
Lemma withScore_scoreOf (score : Z) (document : Value) :
  hasOwn document "score" = false ->
  getProp (withScore score document) "score" = VNum score /\
  scoreOf (withScore score document) = score.
Proof.
  intros H.
  assert (E : getProp (withScore score document) "score" = VNum score).
  { unfold withScore, objectAssign, getProp. rewrite lookup_assign_absent.
    - reflexivity.
    - destruct document; try reflexivity. simpl in *.
      destruct (lookup props "score"); [discriminate H | reflexivity]. }
  split; [exact E|]. unfold scoreOf. now rewrite E.
Qed.

Lemma scoreMatches_sum (id : Value) (group : list Match) (score : Z) :
  fold_left (fun score m =>
               match mapGet sameValueZero (docs m) id with
               | Some count => if count =? 0 then score else score + count
               | None => score
               end) group score
  = score + fold_right Z.add 0 (map (countFor id) group).
Proof.
  revert score. induction group as [|m group IH]; intros score; simpl; [lia|].
  rewrite IH. unfold countFor at 2.
  destruct (mapGet sameValueZero (docs m) id) as [c|]; [|lia].
  destruct (Z.eqb_spec c 0); lia.
Qed.

(** [scoreDocument] is the sum of the document's counts over every match of
    every group. *)
Lemma scoreDocument_sum (id : Value) (matchGroups : list (list Match)) :
  scoreDocument id matchGroups = matchedCounts id matchGroups.
Proof.
  unfold scoreDocument, matchedCounts.
  assert (G : forall score,
             fold_left (fun score group =>
                          fold_left (fun score m =>
                                       match mapGet sameValueZero (docs m) id with
                                       | Some count => if count =? 0 then score else score + count
                                       | None => score
                                       end) group score) matchGroups score
             = score + fold_right Z.add 0 (map (countFor id) (List.concat matchGroups))).
  { induction matchGroups as [|group groups IH]; intros score; simpl; [lia|].
    rewrite IH, scoreMatches_sum, map_app, fold_right_app.
    assert (S : forall (l : list Z) (z : Z),
               fold_right Z.add z l = fold_right Z.add 0 l + z).
    { induction l as [|x l IHl]; intros z; simpl; [lia | rewrite IHl; lia]. }
    rewrite (S _ (fold_right Z.add 0 (map (countFor id) (List.concat groups)))). lia. }
  now rewrite G.
Qed.

Lemma mapGet_In {V : Type} (m : list (Value * V)) (key : Value) (v : V) :
  mapGet sameValueZero m key = Some v -> In (key, v) m.
Proof.
  induction m as [|[k x] m IH]; simpl; [discriminate|].
  destruct (sameValueZero k key) eqn:E.
  - apply sameValueZero_eq in E. intros [= ->]. left. now subst.
  - intros H. right. now apply IH.
Qed.

(** The results of [search] before sorting: one per candidate id that is
    stored and passes the filter, the document with its score put in front. *)
Lemma scored_In (this : t) (f : option (Value -> bool)) (groups : list (list Match))
  (ids : list Value) (r : Value) :
  In r (scored this f groups ids) <->
  exists id document,
    In id ids /\ mapGet sameValueZero (documents this) id = Some document /\
    truthy document = true /\ rejected f document = false /\
    r = withScore (scoreDocument id groups) document.
Proof.
  unfold scored. rewrite in_flat_map. split.
  - intros [id [I H]].
    destruct (mapGet sameValueZero (documents this) id) as [document|] eqn:G; [|contradiction].
    destruct (truthy document) eqn:T; simpl in H; [|contradiction].
    destruct (rejected f document) eqn:R; [contradiction|].
    destruct H as [<- | []]. now exists id, document.
  - intros (id & document & I & G & T & R & ->). exists id. split; [exact I|].
    rewrite G, T. simpl. rewrite R. now left.
Qed.

(** For a query with at least one term, the results are the scored
    candidates, in some order. *)
Lemma search_perm (this : t) (query : Value) (options : Options) :
  tokenize query <> [] ->
  (exists term, In term (tokenize query) /\ lookupTerm this term (prefix options) = []) \/
  Permutation
    (scored this (filterFn options)
       (matchGroupsOf this (tokenize query) (prefix options))
       (candidateIds this (tokenize query) (prefix options)))
    (search this query options).
Proof.
  intros N. unfold search, candidateIds, matchGroupsOf.
  destruct (tokenize query) as [|first others] eqn:T; [now elim N|].
  set (groups := map _ (first :: others)).
  destruct (existsb _ groups) eqn:E.
  - left. apply existsb_exists in E. destruct E as [group [I G]].
    apply in_map_iff in I. destruct I as [term [<- I]]. exists term. split; [exact I|].
    now destruct (lookupTerm this term (prefix options)).
  - right. destruct (intersection groups) eqn:C; [reflexivity | apply arraySort_perm].
Qed.


(** *** search: order of the results *)

Lemma search_sorts (this : t) (query : Value) (options : Options) :
  search this query options =
  match tokenize query with
  | [] => arraySort byTimestamp (unsorted this query options)
  | _ => arraySort byScore (unsorted this query options)
  end.
Proof.
  unfold search, unsorted, collectAll.
  destruct (tokenize query) as [|first others]; [reflexivity|].
  destruct (existsb _ _); [reflexivity|].
  destruct (intersection _); reflexivity.
Qed.

Lemma byTimestamp_follows (l : list Value) : follows byTimestamp recencyRank l.
Proof.
  intros a b _ _. unfold comesAfter, byTimestamp, ranksBelow, recencyRank. simpl.
  rewrite andb_false_r, orb_false_r.
  destruct (Z.ltb_spec 0 (timestampOf b - timestampOf a));
    destruct (Z.ltb_spec (timestampOf a) (timestampOf b)); try lia; reflexivity.
Qed.

(** With numbers as scores, the comparator of [search] follows the rank
    (score, timestamp). *)
Lemma byScore_follows (l : list Value) :
  (forall r, In r l -> exists s, getProp r "score" = VNum s) ->
  follows byScore resultRank l.
Proof.
  intros H a b Ia Ib. destruct (H a Ia) as [sa Ea]. destruct (H b Ib) as [sb Eb].
  unfold comesAfter, byScore, ranksBelow, resultRank, scoreOf. rewrite Ea, Eb. simpl.
  destruct (Z.eqb_spec sb sa) as [-> | N]; simpl.
  - rewrite Z.ltb_irrefl, Z.eqb_refl. simpl.
    destruct (Z.ltb_spec 0 (timestampOf b - timestampOf a));
      destruct (Z.ltb_spec (timestampOf a) (timestampOf b)); try lia; reflexivity.
  - destruct (Z.ltb_spec 0 (sb - sa)); destruct (Z.ltb_spec sa sb); try lia; simpl;
      try reflexivity.
    all: destruct (Z.eqb_spec sa sb); [lia | reflexivity].
Qed.

(** With the same number as every score, the comparator of [collectAll]
    follows that rank too. *)
Lemma byTimestamp_follows_resultRank (l : list Value) (s : Z) :
  (forall r, In r l -> getProp r "score" = VNum s) ->
  follows byTimestamp resultRank l.
Proof.
  intros H a b Ia Ib.
  unfold comesAfter, byTimestamp, ranksBelow, resultRank, scoreOf.
  rewrite (H a Ia), (H b Ib). simpl. rewrite Z.ltb_irrefl, Z.eqb_refl. simpl.
  destruct (Z.ltb_spec 0 (timestampOf b - timestampOf a));
    destruct (Z.ltb_spec (timestampOf a) (timestampOf b)); try lia; reflexivity.
Qed.

Lemma collected_In (this : t) (f : option (Value -> bool)) (r : Value) :
  In r (collected this f) <->
  exists id document,
    In (id, document) (documents this) /\ rejected f document = false /\
    r = withScore 0 document.
Proof.
  unfold collected. rewrite in_flat_map. split.
  - intros [[id document] [I H]]. simpl in H.
    destruct (rejected f document) eqn:R; [contradiction|].
    destruct H as [<- | []]. now exists id, document.
  - intros (id & document & I & R & ->). exists (id, document). split; [exact I|].
    simpl. rewrite R. now left.
Qed.

(** The scores of the results before sorting, when no stored document has
    a [score] of its own: numbers, and 0 in listing mode. *)
Lemma unsorted_scores (this : t) (query : Value) (options : Options) :
  noOwnScore this ->
  (forall r, In r (unsorted this query options) -> exists s, getProp r "score" = VNum s) /\
  (tokenize query = [] ->
   forall r, In r (unsorted this query options) -> getProp r "score" = VNum 0).
Proof.
  intros N.
  assert (L : tokenize query = [] ->
              forall r, In r (unsorted this query options) -> getProp r "score" = VNum 0).
  { intros T r I. unfold unsorted in I. rewrite T in I.
    apply collected_In in I. destruct I as (id & document & I & _ & ->).
    apply withScore_scoreOf. now apply (N id). }
  split; [|exact L]. intros r I.
  destruct (tokenize query) as [|first others] eqn:T.
  - exists 0. now apply L.
  - unfold unsorted in I. rewrite T in I. cbv zeta in I.
    destruct (existsb _ _); [contradiction|].
    apply scored_In in I. destruct I as (id & document & _ & G & _ & _ & ->).
    eexists. apply withScore_scoreOf. apply (N id). now apply mapGet_In.
Qed.

(** C3, as the code has it.  When no stored document has a [score]
    property of its own, the list [search] returns is in descending score,
    results of equal score are in descending timestamp (0 for a timestamp
    that is not a number), and results equal in both keep the order in which
    the loop over the candidates, or over the store, produced them. *)
Theorem search_results_in_descending_score_then_timestamp
  (this : t) (query : Value) (options : Options) :
  noOwnScore this ->
  descending resultRank (search this query options) /\
  stableOrderOf resultRank (unsorted this query options) (search this query options).
Proof.
  intros N. destruct (unsorted_scores this query options N) as [S L].
  rewrite search_sorts. destruct (tokenize query) as [|first others] eqn:T.
  - apply arraySort_stable. apply (byTimestamp_follows_resultRank _ 0). now apply L.
  - apply arraySort_stable. now apply byScore_follows.
Qed.

Lemma helloIndex_noOwnScore : noOwnScore helloIndex.
Proof.
  intros id document I. vm_compute in I.
  destruct I as [E | [E | []]]; injection E as <- <-; reflexivity.
Qed.

Lemma search_results_in_descending_score_then_timestamp_witness :
  noOwnScore helloIndex /\
  descending resultRank (search helloIndex (VStr "hello") (mkOptions None false)) /\
  stableOrderOf resultRank
    (unsorted helloIndex (VStr "hello") (mkOptions None false))
    (search helloIndex (VStr "hello") (mkOptions None false)).
Proof.
  split; [exact helloIndex_noOwnScore|].
  exact (search_results_in_descending_score_then_timestamp
           helloIndex (VStr "hello") (mkOptions None false) helloIndex_noOwnScore).
Defined.

(** The scenario of the specification: both documents score 1 on "hello",
    and "b", the more recent, comes first. *)
Example hello_by_timestamp :
  map (fun r => (getProp r "id", resultRank r))
      (search helloIndex (VStr "hello") (mkOptions None false))
  = [(VStr "b", (1, 20)); (VStr "a", (1, 10))].
Proof. reflexivity. Qed.

(** C7, as the code has it.  The empty string, [null] and [undefined] have
    no token, and for a query without a token [search] returns exactly the
    stored documents that pass the filter, each as [Object.assign({ score: 0 },
    document)], by descending timestamp (0 for a timestamp that is not a
    number), documents of equal timestamp in the order of the store.  The
    score of the result is 0 for every document that has no [score] property
    of its own. *)
Theorem search_without_token_lists_the_store :
  (forall query,
     query = VStr EmptyString \/ query = VNull \/ query = VUndefined ->
     tokenize query = []) /\
  (forall this query options,
     tokenize query = [] ->
     search this query options = collectAll this (filterFn options) /\
     (forall r, In r (search this query options) <->
        exists id document,
          In (id, document) (documents this) /\
          rejected (filterFn options) document = false /\ r = withScore 0 document) /\
     descending recencyRank (search this query options) /\
     stableOrderOf recencyRank (collected this (filterFn options))
                   (search this query options) /\
     (forall id document,
        In (id, document) (documents this) -> hasOwn document "score" = false ->
        getProp (withScore 0 document) "score" = VNum 0)).
Proof.
  split.
  - intros query [-> | [-> | ->]]; reflexivity.
  - intros this query options T.
    assert (E : search this query options = collectAll this (filterFn options)).
    { unfold search. now rewrite T. }
    rewrite E. unfold collectAll.
    destruct (arraySort_stable byTimestamp recencyRank (collected this (filterFn options))
                (byTimestamp_follows _)) as [D [P F]].
    repeat split; try assumption.
    + intros I. apply collected_In. now apply (Permutation_in _ (Permutation_sym P)).
    + intros H. apply (Permutation_in _ P). now apply collected_In.
    + intros id document _ H. now apply withScore_scoreOf.
Qed.

Lemma search_without_token_lists_the_store_witness :
  tokenize VNull = [] /\
  search helloIndex VNull (mkOptions None true) = collectAll helloIndex None /\
  search helloIndex VNull (mkOptions None true) = [withScore 0 helloThere; withScore 0 helloWorld].
Proof.
  split; [reflexivity|]. split.
  - exact (proj1 (proj2 search_without_token_lists_the_store
                    helloIndex VNull (mkOptions None true) eq_refl)).
  - reflexivity.
Defined.

(** *** search: the score of a document that was added once *)

Import BulkLoad SingleLoad.

Lemma add_cases (this : t) (document : Value) :
  (lacksId document = true /\ add this document = Throw this missingId) \/
  (lacksId document = false /\ hasId document = false /\ add this document = Normal this) \/
  (lacksId document = false /\ hasId document = true /\
   exists this', add this document = Normal this' /\
     fields this' = fields this /\
     mapGet sameValueZero (documents this') (getProp document "id") = Some document /\
     forall id, id <> getProp document "id" ->
       mapGet sameValueZero (documents this') id = mapGet sameValueZero (documents this) id).
Proof.
  unfold lacksId, hasId, add.
  destruct (truthy document); simpl; [|right; left; repeat split].
  destruct (typeOf document =? "object")%string; simpl; [|right; left; repeat split].
  destruct (isNullish (getProp document "id")); simpl; [left; now split|].
  right. right. split; [reflexivity|]. split; [reflexivity|].
  eexists. split; [reflexivity|]. simpl. split; [reflexivity|]. split.
  - apply (mapGet_mapSet_same sameValueZero sameValueZero_eq).
  - intros id N. apply (mapGet_mapSet_other sameValueZero sameValueZero_eq). congruence.
Qed.











(** *** A document with a [score] of its own *)


(** C7 as the specification states it fails: in listing mode the two posts
    come back with the scores 1 and 5 of their own fields, not with 0. *)
Lemma listing_keeps_own_scores :
  tokenize (VStr EmptyString) = [] /\
  map (fun r => getProp r "score")
      (search ratedPostsIndex (VStr EmptyString) (mkOptions None false))
  = [VNum 1; VNum 5] /\
  ~ (forall r, In r (search ratedPostsIndex (VStr EmptyString) (mkOptions None false)) ->
       getProp r "score" = VNum 0).
Proof.
  split; [reflexivity | split; [reflexivity|]].
  intros H. specialize (H _ (or_introl eq_refl)). vm_compute in H. discriminate H.
Qed.

(** C3 as the specification states it fails: the listing is ordered by
    timestamp alone, and the scores the two results carry, 1 then 5, are not
    in descending order. *)
Lemma listing_is_not_in_descending_score :
  map resultRank (search ratedPostsIndex (VStr EmptyString) (mkOptions None false))
  = [(1, 10); (5, 5)] /\
  ~ descending resultRank (search ratedPostsIndex (VStr EmptyString) (mkOptions None false)).
Proof.
  split; [reflexivity|]. intros D. unfold descending in D.
  apply StronglySorted_inv in D. destruct D as [_ F].
  apply Forall_inv in F. vm_compute in F. discriminate F.
Qed.

(** ** Further properties of the code *)

Import Coverage Invariants.

(** *** tokenize *)

Lemma lower_keeps_class (c : ascii) :
  isLetterOrNumber (toLowerChar c) = isLetterOrNumber c.
Proof. destruct c as [[] [] [] [] [] [] [] []]; reflexivity. Qed.

Lemma lower_of_class (c : ascii) :
  isLetterOrNumber c = true -> isLowerOrDigit (toLowerChar c) = true.
Proof. destruct c as [[] [] [] [] [] [] [] []]; intros H; try reflexivity; discriminate H. Qed.

Lemma lower_fixes_lowerOrDigit (c : ascii) :
  isLowerOrDigit c = true -> toLowerChar c = c /\ isLetterOrNumber c = true.
Proof.
  destruct c as [[] [] [] [] [] [] [] []]; intros H; try (split; reflexivity); discriminate H.
Qed.

Lemma lower_idempotent_char (c : ascii) : toLowerChar (toLowerChar c) = toLowerChar c.
Proof. destruct c as [[] [] [] [] [] [] [] []]; reflexivity. Qed.

Lemma toLowerCase_idempotent (s : string) : toLowerCase (toLowerCase s) = toLowerCase s.
Proof.
  induction s as [|c s IH]; simpl; [reflexivity|]. now rewrite lower_idempotent_char, IH.
Qed.

Lemma toLowerCase_empty (s : string) : toLowerCase s = EmptyString <-> s = EmptyString.
Proof. destruct s; simpl; split; congruence. Qed.

Lemma anyChar_lower (s : string) :
  anyChar isLetterOrNumber (toLowerCase s) = anyChar isLetterOrNumber s.
Proof.
  induction s as [|c s IH]; simpl; [reflexivity|]. now rewrite lower_keeps_class, IH.
Qed.

Lemma allChars_lower (s : string) :
  allChars isLetterOrNumber s = true -> allChars isLowerOrDigit (toLowerCase s) = true.
Proof.
  induction s as [|c s IH]; simpl; [reflexivity|]. intros H.
  apply andb_true_iff in H. destruct H as [Hc Hs].
  now rewrite (lower_of_class c Hc), IH.
Qed.

Lemma toLowerCase_token (tok : string) :
  allChars isLowerOrDigit tok = true ->
  toLowerCase tok = tok /\ allChars isLetterOrNumber tok = true.
Proof.
  induction tok as [|c tok IH]; simpl; [now split|]. intros H.
  apply andb_true_iff in H. destruct H as [Hc Hs].
  destruct (lower_fixes_lowerOrDigit c Hc) as [-> ->]. destruct (IH Hs) as [-> ->]. now split.
Qed.

Lemma allChars_app (class : ascii -> bool) (s u : string) :
  allChars class (s ++ u) = allChars class s && allChars class u.
Proof.
  induction s as [|c s IH]; simpl; [reflexivity|]. now rewrite IH, andb_assoc.
Qed.

Lemma append_empty_r (s : string) : (s ++ EmptyString)%string = s.
Proof. induction s as [|c s IH]; simpl; [reflexivity | now rewrite IH]. Qed.

Lemma append_assoc (s u v : string) : ((s ++ u) ++ v)%string = (s ++ (u ++ v))%string.
Proof. induction s as [|c s IH]; simpl; [reflexivity | now rewrite IH]. Qed.

Lemma append_nonempty (s : string) (c : ascii) :
  (s ++ String c EmptyString)%string <> EmptyString.
Proof. destruct s; simpl; discriminate. Qed.

(** The runs [matchRuns] returns are not empty and lie in the class. *)
Lemma matchRuns_runs (class : ascii -> bool) (text current : string) :
  allChars class current = true ->
  Forall (fun run => run <> EmptyString /\ allChars class run = true)
         (matchRuns class text current).
Proof.
  revert current. induction text as [|c text IH]; intros current H; simpl.
  - destruct current; [constructor|]. constructor; [|constructor]. split; [discriminate | exact H].
  - destruct (class c) eqn:E.
    + apply IH. rewrite allChars_app, H. simpl. now rewrite E.
    + destruct current; [now apply IH|].
      constructor; [split; [discriminate | exact H] | now apply IH].
Qed.

(** No run at all: nothing was being read and no character is in the
    class. *)
Lemma matchRuns_nil (class : ascii -> bool) (text current : string) :
  matchRuns class text current = [] <->
  current = EmptyString /\ anyChar class text = false.
Proof.
  revert current. induction text as [|c text IH]; intros current; simpl.
  - destruct current; split; try tauto; try discriminate. intros [H _]. discriminate H.
  - destruct (class c) eqn:E; simpl.
    + rewrite IH. split; [|intros [_ H]; discriminate H].
      intros [H _]. now elim (append_nonempty current c).
    + destruct current; [rewrite IH; tauto|].
      split; [discriminate | intros [H _]; discriminate H].
Qed.

(** A text wholly in the class is one run. *)
Lemma matchRuns_whole (class : ascii -> bool) (text current : string) :
  allChars class text = true ->
  (current ++ text)%string <> EmptyString ->
  matchRuns class text current = [(current ++ text)%string].
Proof.
  revert current. induction text as [|c text IH]; intros current H N; simpl.
  - rewrite append_empty_r in *. destruct current; [now elim N | reflexivity].
  - simpl in H. apply andb_true_iff in H. destruct H as [Hc Hs]. rewrite Hc.
    rewrite IH; [|exact Hs|rewrite append_assoc; exact N].
    now rewrite append_assoc.
Qed.

(** A character outside the class ends the run before it and starts the
    scan afresh behind it. *)
Lemma matchRuns_separator (class : ascii -> bool) (a b current : string) (sep : ascii) :
  class sep = false ->
  matchRuns class (a ++ String sep b) current
  = matchRuns class a current ++ matchRuns class b EmptyString.
Proof.
  intros S. revert current. induction a as [|c a IH]; intros current; simpl.
  - rewrite S. destruct current; reflexivity.
  - destruct (class c); [apply IH|].
    destruct current; [apply IH|]. simpl. now rewrite IH.
Qed.

(** [tokenize] without its fallback: the second pattern is only tried when
    the text has no letter and no digit, and then finds nothing either. *)
Lemma tokenize_core (raw : Value) :
  tokenize raw =
  if truthy raw
  then map toLowerCase (matchRuns isLetterOrNumber (toLowerCase (toStr raw)) EmptyString)
  else [].
Proof.
  unfold tokenize. destruct (truthy raw); simpl; [|reflexivity].
  destruct (matchRuns isLetterOrNumber (toLowerCase (toStr raw)) EmptyString) eqn:M;
    [|reflexivity].
  apply matchRuns_nil in M. destruct M as [_ M].
  assert (F : matchRuns isLowerOrDigit (toLowerCase (toStr raw)) EmptyString = []).
  { apply matchRuns_nil. split; [reflexivity|].
    induction (toLowerCase (toStr raw)) as [|c s IH]; simpl in *; [reflexivity|].
    apply orb_false_iff in M. destruct M as [Mc Ms]. rewrite (IH Ms), orb_false_r.
    destruct (isLowerOrDigit c) eqn:E; [|reflexivity].
    destruct (lower_fixes_lowerOrDigit c E) as [_ L]. congruence. }
  now rewrite F.
Qed.

(** X1.  For a value whose string form is ASCII text, every token
    [tokenize] returns is a non-empty string of the lower-case letters a-z
    and the digits 0-9. *)
Theorem tokenize_returns_tokens (raw : Value) (tok : string) :
  asciiText (toStr raw) = true -> In tok (tokenize raw) -> isToken tok.
Proof.
  intros _. rewrite tokenize_core. destruct (truthy raw); [|intros []].
  intros I. apply in_map_iff in I. destruct I as [run [<- I]].
  pose proof (matchRuns_runs isLetterOrNumber (toLowerCase (toStr raw)) EmptyString eq_refl) as F.
  rewrite Forall_forall in F. destruct (F run I) as [N A]. split.
  - intros E. apply (proj1 (toLowerCase_empty run)) in E. contradiction.
  - now apply allChars_lower.
Qed.

Lemma tokenize_returns_tokens_witness :
  asciiText (toStr (VStr "Hello, World!")) = true /\
  In "world" (tokenize (VStr "Hello, World!")) /\ isToken "world".
Proof.
  assert (I : In "world" (tokenize (VStr "Hello, World!"))) by (right; left; reflexivity).
  split; [reflexivity|]. split; [exact I|].
  exact (tokenize_returns_tokens (VStr "Hello, World!") "world" eq_refl I).
Defined.

(** X2.  For a value whose string form is ASCII text, [tokenize] returns no
    token exactly when the value is falsy or its string form holds none of
    the letters A-Z, a-z and none of the digits 0-9: a query of ASCII
    punctuation or blanks is handled like the empty query. *)
Theorem tokenize_nothing_iff (raw : Value) :
  asciiText (toStr raw) = true ->
  (tokenize raw = [] <->
   truthy raw = false \/ anyChar isLetterOrNumber (toStr raw) = false).
Proof.
  intros _. rewrite tokenize_core. destruct (truthy raw).
  - rewrite <- anyChar_lower. split.
    + intros H. right. apply map_eq_nil in H. now apply matchRuns_nil in H.
    + intros [H | H]; [discriminate H|].
      assert (M : matchRuns isLetterOrNumber (toLowerCase (toStr raw)) EmptyString = []).
      { apply matchRuns_nil. now split. }
      now rewrite M.
  - split; [now left | reflexivity].
Qed.

Lemma tokenize_nothing_iff_witness :
  asciiText (toStr (VStr "?! ...")) = true /\
  (tokenize (VStr "?! ...") = [] <->
   truthy (VStr "?! ...") = false \/ anyChar isLetterOrNumber (toStr (VStr "?! ...")) = false).
Proof.
  split; [reflexivity|].
  exact (tokenize_nothing_iff (VStr "?! ...") eq_refl).
Defined.

Lemma tokenize_of_token (tok : string) : isToken tok -> tokenize (VStr tok) = [tok].
Proof.
  intros [N A]. rewrite tokenize_core. simpl.
  apply String.eqb_neq in N. rewrite N. simpl.
  destruct (toLowerCase_token tok A) as [L C]. rewrite L.
  rewrite matchRuns_whole; [|exact C|simpl; now apply String.eqb_neq].
  simpl. now rewrite L.
Qed.

(** X3.  A token that [tokenize] produced is read back as itself: the
    tokens an [add] puts in the index are the terms a query for them looks
    up. *)
Theorem tokenize_token_again (raw : Value) (tok : string) :
  In tok (tokenize raw) -> tokenize (VStr tok) = [tok].
Proof.
  intros I. apply tokenize_of_token. revert I. rewrite tokenize_core.
  destruct (truthy raw); [|intros []].
  intros I. apply in_map_iff in I. destruct I as [run [<- I]].
  pose proof (matchRuns_runs isLetterOrNumber (toLowerCase (toStr raw)) EmptyString eq_refl) as F.
  rewrite Forall_forall in F. destruct (F run I) as [N A]. split.
  - intros E. apply (proj1 (toLowerCase_empty run)) in E. contradiction.
  - now apply allChars_lower.
Qed.

Lemma tokenize_token_again_witness :
  In "hello" (tokenize (VArr [VStr "Hello"; VNum 42])) /\ tokenize (VStr "hello") = ["hello"].
Proof.
  assert (I : In "hello" (tokenize (VArr [VStr "Hello"; VNum 42]))) by (left; reflexivity).
  split; [exact I|].
  exact (tokenize_token_again (VArr [VStr "Hello"; VNum 42]) "hello" I).
Defined.

(** X4.  Two query strings that differ only in the case of their letters
    have the same tokens, and [search] returns the same list for them. *)
Theorem search_ignores_case (a b : string) :
  toLowerCase a = toLowerCase b ->
  tokenize (VStr a) = tokenize (VStr b) /\
  forall this options, search this (VStr a) options = search this (VStr b) options.
Proof.
  intros E.
  assert (T : tokenize (VStr a) = tokenize (VStr b)).
  { rewrite !tokenize_core. simpl. rewrite E.
    assert (Z : (a =? EmptyString)%string = (b =? EmptyString)%string).
    { destruct a, b; simpl in *; try reflexivity; discriminate E. }
    now rewrite Z. }
  split; [exact T|]. intros this options. unfold search. now rewrite T.
Qed.

Lemma search_ignores_case_witness :
  toLowerCase "HELLO" = toLowerCase "hello" /\
  tokenize (VStr "HELLO") = tokenize (VStr "hello") /\
  forall this options, search this (VStr "HELLO") options = search this (VStr "hello") options.
Proof.
  split; [reflexivity|].
  exact (search_ignores_case "HELLO" "hello" eq_refl).
Defined.

Lemma tokenize_all_tokens (raw : Value) : Forall isToken (tokenize raw).
Proof.
  rewrite tokenize_core. destruct (truthy raw); [|constructor].
  pose proof (matchRuns_runs isLetterOrNumber (toLowerCase (toStr raw)) EmptyString eq_refl) as F.
  induction F as [|run runs [N A] F IH]; simpl; constructor; [|exact IH].
  split.
  - intros E. apply (proj1 (toLowerCase_empty run)) in E. contradiction.
  - now apply allChars_lower.
Qed.

Lemma toLowerCase_app (s u : string) :
  toLowerCase (s ++ u) = (toLowerCase s ++ toLowerCase u)%string.
Proof. induction s as [|c s IH]; simpl; [reflexivity | now rewrite IH]. Qed.

Lemma tokenize_string (s : string) :
  tokenize (VStr s)
  = map toLowerCase (matchRuns isLetterOrNumber (toLowerCase s) EmptyString).
Proof.
  rewrite tokenize_core. simpl. destruct s; reflexivity.
Qed.

Lemma tokenize_spaced (a b : string) :
  tokenize (VStr (a ++ String " " b)) = tokenize (VStr a) ++ tokenize (VStr b).
Proof.
  rewrite !tokenize_string, toLowerCase_app. simpl toLowerCase.
  change (toLowerChar " ") with " "%char.
  rewrite matchRuns_separator by reflexivity. now rewrite map_app.
Qed.

Lemma tokenize_joined (parts : list string) :
  tokenize (VStr (String.concat " " parts))
  = flat_map (fun part => tokenize (VStr part)) parts.
Proof.
  induction parts as [|part parts IH]; [reflexivity|].
  destruct parts as [|next parts].
  - simpl. now rewrite app_nil_r.
  - change (String.concat " " (part :: next :: parts))
      with (part ++ String " " (String.concat " " (next :: parts)))%string.
    rewrite tokenize_spaced, IH. reflexivity.
Qed.

(** X5.  A field whose value is an array of strings contributes the tokens
    of its elements, element after element: joining with a space never
    merges or splits a token. *)
Theorem array_field_is_indexed_by_element
  (document : Value) (field : string) (parts : list string) :
  getProp document field = VArr (map VStr parts) ->
  fieldTokens document field = flat_map (fun part => tokenize (VStr part)) parts.
Proof.
  intros H. unfold fieldTokens. rewrite H. simpl isNullish. cbv iota.
  unfold asArray, join. rewrite map_map. simpl.
  replace (map (fun x : string => x) parts) with parts by (symmetry; apply map_id).
  apply tokenize_joined.
Qed.

Lemma array_field_is_indexed_by_element_witness :
  getProp taggedPost "tags" = VArr (map VStr ["GitHub Pages"; "welcome"]) /\
  fieldTokens taggedPost "tags" = ["github"; "pages"; "welcome"].
Proof.
  split; [reflexivity|].
  exact (array_field_is_indexed_by_element taggedPost "tags" ["GitHub Pages"; "welcome"]
           eq_refl).
Defined.

(** *** The shape of the Maps an instance holds *)

Section MapShape.
Context {K V : Type} (keyEq : K -> K -> bool).
Hypothesis keyEq_eq : forall a b, keyEq a b = true <-> a = b.

Lemma mapGet_some_In (m : list (K * V)) (key : K) (v : V) :
  mapGet keyEq m key = Some v -> In (key, v) m.
Proof.
  induction m as [|[k x] m IH]; simpl; [discriminate|].
  destruct (keyEq k key) eqn:E.
  - apply keyEq_eq in E. intros [= ->]. left. now subst.
  - intros H. right. now apply IH.
Qed.

Lemma mapGet_none_keys (m : list (K * V)) (key : K) :
  mapGet keyEq m key = None -> ~ In key (map fst m).
Proof.
  induction m as [|[k x] m IH]; simpl; [tauto|].
  destruct (keyEq k key) eqn:E; [discriminate|].
  intros H [-> | I]; [|now apply IH].
  rewrite (keyEq_same keyEq keyEq_eq) in E. discriminate E.
Qed.

Lemma mapSet_keys (m : list (K * V)) (key : K) (v : V) :
  map fst (mapSet keyEq m key v) = map fst m \/
  (~ In key (map fst m) /\ map fst (mapSet keyEq m key v) = map fst m ++ [key]).
Proof.
  induction m as [|[k x] m IH]; simpl.
  - right. split; [tauto | reflexivity].
  - destruct (keyEq k key) eqn:E; simpl; [now left|].
    destruct IH as [-> | [N ->]]; [now left | right]. split; [|reflexivity].
    intros [-> | I]; [|contradiction].
    rewrite (keyEq_same keyEq keyEq_eq) in E. discriminate E.
Qed.

Lemma mapSet_NoDup (m : list (K * V)) (key : K) (v : V) :
  NoDup (map fst m) -> NoDup (map fst (mapSet keyEq m key v)).
Proof.
  intros N. destruct (mapSet_keys m key v) as [-> | [I ->]]; [exact N|].
  apply NoDup_app; [exact N | repeat constructor; tauto|].
  intros x Ix [<- | []]. contradiction.
Qed.

Lemma mapSet_In (m : list (K * V)) (key k' : K) (v v' : V) :
  In (k', v') (mapSet keyEq m key v) -> (k' = key /\ v' = v) \/ In (k', v') m.
Proof.
  induction m as [|[k x] m IH]; simpl.
  - intros [[= <- <-] | []]. now left.
  - destruct (keyEq k key) eqn:E; simpl.
    + apply keyEq_eq in E. subst k. intros [[= <- <-] | I]; [now left | right; now right].
    + intros [I | I]; [right; now left|]. destruct (IH I) as [H | H]; [now left | right; now right].
Qed.

Lemma mapSet_In_new (m : list (K * V)) (key : K) (v : V) :
  In (key, v) (mapSet keyEq m key v).
Proof.
  induction m as [|[k x] m IH]; simpl; [now left|].
  destruct (keyEq k key) eqn:E; simpl; [|now right].
  apply keyEq_eq in E. subst k. now left.
Qed.

Lemma mapSet_In_old (m : list (K * V)) (key k' : K) (v v' : V) :
  In (k', v') m -> k' <> key -> In (k', v') (mapSet keyEq m key v).
Proof.
  intros I N. induction m as [|[k x] m IH]; simpl; [contradiction|].
  destruct (keyEq k key) eqn:E; simpl.
  - apply keyEq_eq in E. subst k. destruct I as [[= <- <-] | I]; [now elim N | now right].
  - destruct I as [I | I]; [now left | right; now apply IH].
Qed.

Lemma mapSet_not_empty (m : list (K * V)) (key : K) (v : V) : mapSet keyEq m key v <> [].
Proof. destruct m as [|[k x] m]; simpl; [discriminate|]. destruct (keyEq k key); discriminate. Qed.
End MapShape.

(** *** The invariant of the instance *)

Import IndexShape.

Lemma addToken_indexOk (known : Value -> Prop) (id : Value)
  (index : list (string * list (Value * Z))) (tok : string) :
  tok <> EmptyString -> known id -> indexOk known index ->
  indexOk known (addToken id index tok).
Proof.
  intros T K [N H]. unfold addToken.
  set (docMap := match mapGet String.eqb index tok with Some m => m | None => [] end).
  assert (D : NoDup (map fst docMap) /\
              forall i c, In (i, c) docMap -> 1 <= c /\ known i).
  { unfold docMap. destruct (mapGet String.eqb index tok) as [m|] eqn:G.
    - apply (mapGet_some_In String.eqb String.eqb_eq) in G.
      destruct (H tok m G) as (_ & _ & Nm & Hm). now split.
    - split; [constructor | intros i c []]. }
  destruct D as [Nd Hd]. split.
  - now apply (mapSet_NoDup String.eqb String.eqb_eq).
  - intros tok' docMap' I.
    apply (mapSet_In String.eqb String.eqb_eq) in I. destruct I as [[-> ->] | I]; [|now apply H].
    split; [exact T|]. split; [apply mapSet_not_empty|].
    split; [now apply (mapSet_NoDup sameValueZero sameValueZero_eq)|].
    intros i c I. apply (mapSet_In sameValueZero sameValueZero_eq) in I.
    destruct I as [[-> ->] | I]; [|now apply Hd]. split; [|exact K].
    destruct (mapGet sameValueZero docMap id) as [c0|] eqn:G; simpl; [|lia].
    apply (mapGet_some_In sameValueZero sameValueZero_eq) in G.
    destruct (Hd id c0 G) as [P _]. destruct (Z.eqb_spec c0 0); lia.
Qed.

Lemma addField_indexOk (known : Value -> Prop) (id document : Value) (fs : list string)
  (index : list (string * list (Value * Z))) :
  known id -> indexOk known index ->
  indexOk known (fold_left (addField id document) fs index).
Proof.
  intros K. revert index. induction fs as [|field fs IH]; intros index H; simpl; [exact H|].
  apply IH. unfold addField.
  pose proof (tokenize_all_tokens
                (VStr (join (asArray (getProp document field)) " "))) as T.
  unfold fieldTokens. destruct (isNullish (getProp document field)); [exact H|].
  revert index H.
  induction T as [|tok toks Ht T IHt]; intros index H; simpl; [exact H|].
  apply IHt. apply addToken_indexOk; [exact (proj1 Ht) | exact K | exact H].
Qed.

Lemma add_wellFormed (this : t) (document : Value) :
  wellFormed this -> wellFormed (built (add this document)).
Proof.
  intros W. unfold add.
  destruct (negb (truthy document) || negb (typeOf document =? "object")%string) eqn:G;
    [exact W|].
  destruct (isNullish (getProp document "id")) eqn:N; [exact W|].
  apply orb_false_iff in G. destruct G as [G1 G2].
  apply negb_false_iff in G1. apply negb_false_iff, String.eqb_eq in G2.
  destruct W as (Ni & Nd & Hi & Hd). unfold wellFormed, built. simpl.
  set (id := getProp document "id") in *.
  set (docs' := mapSet sameValueZero (documents this) id document).
  assert (K : forall i, (exists d, In (i, d) (documents this)) -> exists d, In (i, d) docs').
  { intros i [d I]. destruct (sameValueZero i id) eqn:E.
    - apply sameValueZero_eq in E. subst i. exists document.
      apply (mapSet_In_new sameValueZero sameValueZero_eq).
    - exists d. apply (mapSet_In_old sameValueZero sameValueZero_eq); [exact I|].
      intros ->. now rewrite sameValueZero_refl in E. }
  assert (O : indexOk (fun i => exists d, In (i, d) docs')
                (fold_left (addField id document) (fields this) (invertedIndex this))).
  { apply addField_indexOk.
    - exists document. apply (mapSet_In_new sameValueZero sameValueZero_eq).
    - split; [exact Ni|]. intros tok docMap I.
      destruct (Hi tok docMap I) as (T & E & Nm & Hm).
      split; [exact T|]. split; [exact E|]. split; [exact Nm|].
      intros i c Ic. destruct (Hm i c Ic) as [P Q]. split; [exact P | now apply K]. }
  destruct O as [N' H'].
  split; [exact N'|].
  split; [now apply (mapSet_NoDup sameValueZero sameValueZero_eq)|].
  split; [exact H'|].
  intros i d I. apply (mapSet_In sameValueZero sameValueZero_eq) in I.
  destruct I as [[-> ->] | I]; [|now apply Hd].
  split; [now split|]. split; [reflexivity | exact N].
Qed.

Lemma addEach_wellFormed (docs : list Value) (this : t) :
  wellFormed this -> wellFormed (built (addEach this docs)).
Proof.
  revert this. induction docs as [|d docs IH]; intros this W; simpl; [exact W|].
  pose proof (add_wellFormed this d W) as A.
  destruct (add this d) as [this' | this' message]; simpl in A; [now apply IH | exact A].
Qed.

(** X6.  The invariant of the index engine.  A new instance is well formed,
    and [add] and [addAll] keep it so, whether they return or throw: no
    token and no id is a key twice, every index entry is under a token that
    is not the empty string and holds, for at least one id, counts that are
    at least 1, every id of the index has a stored document, and every
    stored document is an object stored under its own [id]. *)
Theorem instances_stay_well_formed :
  (forall optionFields, wellFormed (create optionFields)) /\
  (forall this document, wellFormed this -> wellFormed (built (add this document))) /\
  (forall this docs, wellFormed this -> wellFormed (built (addAll this docs))).
Proof.
  split; [|split].
  - intros optionFields. unfold wellFormed, create. simpl.
    repeat split; try constructor; contradiction.
  - exact add_wellFormed.
  - intros this docs W. destruct docs; try exact W. simpl. now apply addEach_wellFormed.
Qed.

Lemma helloIndex_wellFormed : wellFormed helloIndex.
Proof.
  unfold helloIndex. apply addEach_wellFormed.
  unfold wellFormed, create. simpl. repeat split; try constructor; contradiction.
Qed.

(** *** add, then search *)

Lemma startsWith_refl (s : string) : startsWith s s = true.
Proof. induction s as [|c s IH]; simpl; [reflexivity|]. now rewrite Ascii.eqb_refl. Qed.

Lemma mapSet_has_key (docMap : list (Value * Z)) (id id' : Value) (c : Z) :
  In id (map fst docMap) -> In id (map fst (mapSet sameValueZero docMap id' c)).
Proof.
  intros I. destruct (mapSet_keys sameValueZero sameValueZero_eq docMap id' c) as [-> | [_ ->]];
    [exact I | apply in_or_app; now left].
Qed.

(** Once a token has an entry that holds an id, every later [addToken]
    leaves it one. *)
Lemma addToken_keeps_entry (id id' : Value) (index : list (string * list (Value * Z)))
  (tok tok' : string) :
  (exists docMap, mapGet String.eqb index tok = Some docMap /\ In id (map fst docMap)) ->
  exists docMap,
    mapGet String.eqb (addToken id' index tok') tok = Some docMap /\ In id (map fst docMap).
Proof.
  intros [docMap [G I]]. unfold addToken.
  destruct (String.eqb_spec tok' tok) as [-> | N].
  - rewrite G, (mapGet_mapSet_same String.eqb String.eqb_eq).
    eexists. split; [reflexivity | now apply mapSet_has_key].
  - rewrite (mapGet_mapSet_other String.eqb String.eqb_eq) by exact N. now exists docMap.
Qed.

Lemma addToken_makes_entry (id : Value) (index : list (string * list (Value * Z)))
  (tok : string) :
  exists docMap,
    mapGet String.eqb (addToken id index tok) tok = Some docMap /\ In id (map fst docMap).
Proof.
  unfold addToken. rewrite (mapGet_mapSet_same String.eqb String.eqb_eq).
  eexists. split; [reflexivity|].
  apply in_map_iff. eexists (id, _). split; [reflexivity|].
  apply (mapSet_In_new sameValueZero sameValueZero_eq).
Qed.

Lemma addTokens_entry (id : Value) (tokens : list string)
  (index : list (string * list (Value * Z))) (tok : string) :
  In tok tokens \/
  (exists docMap, mapGet String.eqb index tok = Some docMap /\ In id (map fst docMap)) ->
  exists docMap,
    mapGet String.eqb (fold_left (addToken id) tokens index) tok = Some docMap /\
    In id (map fst docMap).
Proof.
  revert index. induction tokens as [|t tokens IH]; intros index H; simpl.
  - destruct H as [[] | H]. exact H.
  - apply IH. destruct H as [[-> | I] | H].
    + right. apply addToken_makes_entry.
    + now left.
    + right. now apply addToken_keeps_entry.
Qed.

Lemma addFields_entry (id document : Value) (fs : list string)
  (index : list (string * list (Value * Z))) (tok : string) :
  In tok (flat_map (fieldTokens document) fs) \/
  (exists docMap, mapGet String.eqb index tok = Some docMap /\ In id (map fst docMap)) ->
  exists docMap,
    mapGet String.eqb (fold_left (addField id document) fs index) tok = Some docMap /\
    In id (map fst docMap).
Proof.
  revert index. induction fs as [|field fs IH]; intros index H; simpl.
  - destruct H as [[] | H]. exact H.
  - apply IH. simpl in H. rewrite in_app_iff in H. destruct H as [[I | I] | H].
    + right. unfold addField. apply addTokens_entry. now left.
    + now left.
    + right. unfold addField. apply addTokens_entry. now right.
Qed.

(** A stored document that is a candidate of every term and passes the
    filter is among the results, with the score [scoreDocument] gives it put
    in front of its fields. *)
Lemma search_returns_candidate (this : t) (query : Value) (options : Options)
  (id document : Value) :
  tokenize query <> [] ->
  In id (candidateIds this (tokenize query) (prefix options)) ->
  mapGet sameValueZero (documents this) id = Some document ->
  truthy document = true ->
  rejected (filterFn options) document = false ->
  In (withScore (scoreDocument id (matchGroupsOf this (tokenize query) (prefix options)))
                document)
     (search this query options).
Proof.
  intros N I G T R.
  destruct (search_perm this query options N) as [[term [It E]] | P].
  - exfalso. unfold candidateIds in I. apply intersection_In in I. destruct I as [_ I].
    specialize (I (lookupTerm this term (prefix options))).
    rewrite E in I. apply I. apply in_map_iff. exists term. now rewrite E.
  - apply (Permutation_in _ P). apply scored_In. now exists id, document.
Qed.

(** X7.  A document that [add] accepted is found again: for every token of
    its indexed fields, a search for that token, exact or by prefix and
    without a filter, returns the document (with a score in front),
    whatever the instance held before. *)
Theorem added_document_is_found
  (this : t) (document : Value) (tok : string) (prefixMode : bool) :
  isDocument document ->
  isNullish (getProp document "id") = false ->
  In tok (documentTokens this document) ->
  exists this' score,
    add this document = Normal this' /\
    In (withScore score document) (search this' (VStr tok) (mkOptions None prefixMode)).
Proof.
  intros D N I.
  assert (T : tokenize (VStr tok) = [tok]).
  { apply tokenize_of_token. unfold documentTokens in I. apply in_flat_map in I.
    destruct I as [field [_ I]]. unfold fieldTokens in I.
    destruct (isNullish (getProp document field)); [contradiction|].
    pose proof (tokenize_all_tokens (VStr (join (asArray (getProp document field)) " "))) as F.
    rewrite Forall_forall in F. now apply F. }
  destruct D as [Tr O]. unfold add. rewrite Tr, O, N. simpl.
  eexists. eexists. split; [reflexivity|].
  set (this' := mk _ _ _).
  assert (E : exists docMap,
             mapGet String.eqb (invertedIndex this') tok = Some docMap /\
             In (getProp document "id") (map fst docMap)).
  { unfold this'. simpl. apply addFields_entry. now left. }
  destruct E as [docMap [G K]].
  assert (C : In (getProp document "id")
                 (candidateIds this' (tokenize (VStr tok)) prefixMode)).
  { rewrite T. unfold candidateIds. apply intersection_In. split; [discriminate|].
    intros group [<- | []]. apply groupIds_In. exists (mkMatch tok docMap).
    split; [|exact K]. destruct prefixMode.
    - apply lookupTerm_prefix_In. simpl. split; [|apply startsWith_refl].
      now apply (mapGet_some_In String.eqb String.eqb_eq).
    - apply lookupTerm_exact_In. now split. }
  apply (search_returns_candidate this' (VStr tok) (mkOptions None prefixMode)
           (getProp document "id") document).
  - rewrite T. discriminate.
  - exact C.
  - unfold this'. simpl. apply (mapGet_mapSet_same sameValueZero sameValueZero_eq).
  - exact Tr.
  - reflexivity.
Qed.

Lemma added_document_is_found_witness :
  isDocument taggedPost /\
  isNullish (getProp taggedPost "id") = false /\
  In "pages" (documentTokens (create (Some ["title"; "tags"])) taggedPost) /\
  exists this' score,
    add (create (Some ["title"; "tags"])) taggedPost = Normal this' /\
    In (withScore score taggedPost) (search this' (VStr "pages") (mkOptions None true)).
Proof.
  assert (D : isDocument taggedPost) by (split; reflexivity).
  assert (I : In "pages" (documentTokens (create (Some ["title"; "tags"])) taggedPost))
    by (right; left; reflexivity).
  split; [exact D | split; [reflexivity | split; [exact I|]]].
  exact (added_document_is_found (create (Some ["title"; "tags"])) taggedPost "pages" true
           D eq_refl I).
Defined.

(** *** What search returns *)

Lemma search_In_unsorted (this : t) (query : Value) (options : Options) (r : Value) :
  In r (search this query options) <-> In r (unsorted this query options).
Proof.
  rewrite search_sorts.
  destruct (tokenize query); split; intros I.
  - now apply (Permutation_in _ (Permutation_sym (arraySort_perm byTimestamp _))).
  - now apply (Permutation_in _ (arraySort_perm byTimestamp _)).
  - now apply (Permutation_in _ (Permutation_sym (arraySort_perm byScore _))).
  - now apply (Permutation_in _ (arraySort_perm byScore _)).
Qed.

Lemma unsorted_In (this : t) (query : Value) (options : Options) (r : Value) :
  In r (unsorted this query options) ->
  exists id document score,
    In (id, document) (documents this) /\
    rejected (filterFn options) document = false /\
    r = withScore score document.
Proof.
  unfold unsorted. destruct (tokenize query) as [|first others].
  - intros I. apply collected_In in I. destruct I as (id & document & I & R & ->).
    now exists id, document, 0.
  - cbv zeta. destruct (existsb _ _); [contradiction|].
    intros I. apply scored_In in I. destruct I as (id & document & _ & G & _ & R & ->).
    apply mapGet_In in G. eexists id, document, _. repeat split; [exact G | exact R].
Qed.

(** X8.  Whatever the query and the options, every element of the list
    [search] returns is a stored document with a score put in front of its
    fields, and a document the filter rejects is never among them. *)
Theorem search_returns_stored_documents_the_filter_accepts
  (this : t) (query : Value) (options : Options) (r : Value) :
  In r (search this query options) ->
  exists id document score,
    In (id, document) (documents this) /\
    rejected (filterFn options) document = false /\
    r = withScore score document.
Proof.
  intros I. apply (proj1 (search_In_unsorted this query options r)) in I.
  now apply (unsorted_In this query options).
Qed.

Lemma search_returns_stored_documents_the_filter_accepts_witness :
  In (withScore 1 helloWorld) (search helloIndex (VStr "world") (mkOptions None false)) /\
  exists id document score,
    In (id, document) (documents helloIndex) /\
    rejected (filterFn (mkOptions None false)) document = false /\
    withScore 1 helloWorld = withScore score document.
Proof.
  assert (I : In (withScore 1 helloWorld)
                 (search helloIndex (VStr "world") (mkOptions None false)))
    by (left; reflexivity).
  split; [exact I|].
  exact (search_returns_stored_documents_the_filter_accepts
           helloIndex (VStr "world") (mkOptions None false) (withScore 1 helloWorld) I).
Defined.

(** X9.  A filter only removes results: what [search] returns with a filter
    is also returned, with the same score, by the same search without one. *)
Theorem filter_only_removes_results
  (this : t) (query : Value) (f : Value -> bool) (prefixMode : bool) (r : Value) :
  In r (search this query (mkOptions (Some f) prefixMode)) ->
  In r (search this query (mkOptions None prefixMode)).
Proof.
  rewrite !search_In_unsorted. unfold unsorted. simpl.
  destruct (tokenize query) as [|first others].
  - rewrite !collected_In. intros (id & document & I & _ & ->). now exists id, document.
  - cbv zeta. destruct (_ || _); [tauto|].
    rewrite !scored_In. intros (id & document & I & G & T & _ & ->).
    now exists id, document.
Qed.

Lemma filter_only_removes_results_witness :
  In (withScore 1 helloThere)
     (search helloIndex (VStr "hello")
        (mkOptions (Some (fun d => sameValueZero (getProp d "id") (VStr "b"))) false)) /\
  In (withScore 1 helloThere) (search helloIndex (VStr "hello") (mkOptions None false)).
Proof.
  assert (I : In (withScore 1 helloThere)
                 (search helloIndex (VStr "hello")
                    (mkOptions (Some (fun d => sameValueZero (getProp d "id") (VStr "b")))
                               false)))
    by (left; reflexivity).
  split; [exact I|].
  exact (filter_only_removes_results helloIndex (VStr "hello") _ false _ I).
Defined.

(** *** addAll as a bulk load *)

Lemma addEach_throws (items : list Value) (this : t) :
  existsb lacksId items = true ->
  exists this', addEach this items = Throw this' missingId.
Proof.
  revert this. induction items as [|d items IH]; intros this H; simpl in *; [discriminate|].
  destruct (add_cases this d) as [[L A] | [(L & _ & A) | (L & _ & this1 & A & _)]];
    rewrite A.
  - now exists this.
  - rewrite L in H. now apply IH.
  - rewrite L in H. now apply IH.
Qed.

(** A bulk load that returns: the store holds, under every id, the last
    element of the array stored under it, and what it held before under the
    ids of no element. *)
Lemma addEach_returns (items : list Value) (this : t) :
  existsb lacksId items = false ->
  exists this',
    addEach this items = Normal this' /\
    fields this' = fields this /\
    forall id,
      mapGet sameValueZero (documents this') id =
      match lastWithId items id with
      | Some document => Some document
      | None => mapGet sameValueZero (documents this) id
      end.
Proof.
  revert this. induction items as [|d items IH]; intros this H; simpl in *.
  - exists this. repeat split.
  - apply orb_false_iff in H. destruct H as [L H].
    destruct (add_cases this d) as [[L' _] | [(_ & Hd & E) | (_ & Hd & this1 & E & F & S & O)]].
    + congruence.
    + rewrite E. destruct (IH this H) as (this' & A & F' & K). exists this'.
      split; [exact A|]. split; [exact F'|].
      intros id. rewrite K, Hd. simpl. now destruct (lastWithId items id).
    + rewrite E. destruct (IH this1 H) as (this' & A & F' & K). exists this'.
      split; [exact A|]. split; [congruence|].
      intros id. rewrite K, Hd. simpl.
      destruct (lastWithId items id); [reflexivity|].
      destruct (sameValueZero (getProp d "id") id) eqn:Q.
      * apply sameValueZero_eq in Q. now rewrite <- Q.
      * apply O. intros ->. now rewrite sameValueZero_refl in Q.
Qed.

(** X10.  [addAll] on an array whose elements have indexed fields that
    convert to strings throws the missing-id error exactly when some element
    is an object without an [id]; otherwise it returns, keeps the configured
    fields, and the store holds under every id the last element of the array
    that is an object with this id, and under the ids of no element what it
    held before. *)
Theorem addAll_throws_iff_an_object_lacks_its_id (this : t) (items : list Value) :
  forallb (indexable this) items = true ->
  (existsb lacksId items = true ->
   exists this', addAll this (VArr items) = Throw this' missingId) /\
  (existsb lacksId items = false ->
   exists this',
     addAll this (VArr items) = Normal this' /\
     fields this' = fields this /\
     forall id,
       mapGet sameValueZero (documents this') id =
       match lastWithId items id with
       | Some document => Some document
       | None => mapGet sameValueZero (documents this) id
       end).
Proof.
  intros _. split; intros H; simpl.
  - now apply addEach_throws.
  - now apply addEach_returns.
Qed.

Lemma addAll_throws_iff_an_object_lacks_its_id_witness :
  forallb (indexable helloIndex)
    [VObj [("id", VStr "a"); ("title", VStr "old")]; VBool true;
     VObj [("id", VStr "a"); ("title", VArr [VStr "new"; VNull])]] = true /\
  lastWithId
    [VObj [("id", VStr "a"); ("title", VStr "old")]; VBool true;
     VObj [("id", VStr "a"); ("title", VArr [VStr "new"; VNull])]] (VStr "a")
  = Some (VObj [("id", VStr "a"); ("title", VArr [VStr "new"; VNull])]) /\
  exists this',
    addAll helloIndex
      (VArr [VObj [("id", VStr "a"); ("title", VStr "old")]; VBool true;
             VObj [("id", VStr "a"); ("title", VArr [VStr "new"; VNull])]])
    = Normal this' /\
    fields this' = fields helloIndex /\
    forall id,
      mapGet sameValueZero (documents this') id =
      match lastWithId
              [VObj [("id", VStr "a"); ("title", VStr "old")]; VBool true;
               VObj [("id", VStr "a"); ("title", VArr [VStr "new"; VNull])]] id with
      | Some document => Some document
      | None => mapGet sameValueZero (documents helloIndex) id
      end.
Proof.
  split; [reflexivity|]. split; [reflexivity|].
  exact (proj2 (addAll_throws_iff_an_object_lacks_its_id helloIndex
                  [VObj [("id", VStr "a"); ("title", VStr "old")]; VBool true;
                   VObj [("id", VStr "a"); ("title", VArr [VStr "new"; VNull])]]
                  eq_refl)
           eq_refl).
Defined.

(** Two posts under one id: the second is the one the store keeps. *)
Example addAll_keeps_the_last_of_an_id :
  mapGet sameValueZero
    (documents (built (addAll (create None)
                         (VArr [VObj [("id", VNum 7); ("title", VStr "old")];
                                VBool true;
                                VObj [("id", VNum 7); ("title", VStr "new")]]))))
    (VNum 7)
  = Some (VObj [("id", VNum 7); ("title", VStr "new")]).
Proof. reflexivity. Qed.

(** *** The candidates of a query *)

Import Narrowing.

Lemma setAdd_NoDup (s : list Value) (key : Value) :
  NoDup s -> NoDup (setAdd sameValueZero s key).
Proof.
  intros N. unfold setAdd. destruct (setHas sameValueZero s key) eqn:E; [exact N|].
  apply NoDup_app; [exact N | repeat constructor; tauto|].
  intros x I [<- | []].
  apply (setHas_In sameValueZero sameValueZero_eq) in I. congruence.
Qed.

Lemma addKeys_NoDup (keys ids : list Value) :
  NoDup ids -> NoDup (fold_left (setAdd sameValueZero) keys ids).
Proof.
  revert ids. induction keys as [|k keys IH]; intros ids N; simpl; [exact N|].
  apply IH. now apply setAdd_NoDup.
Qed.

Lemma groupIds_NoDup (group : list Match) : NoDup (groupIds group).
Proof.
  unfold groupIds.
  assert (G : forall ids, NoDup ids ->
                NoDup (fold_left
                         (fun ids m => fold_left (setAdd sameValueZero) (map fst (docs m)) ids)
                         group ids)).
  { induction group as [|m group IH]; intros ids N; simpl; [exact N|].
    apply IH. now apply addKeys_NoDup. }
  apply G. constructor.
Qed.

(** On a Set, the inner loop of [intersection] is a filter. *)
Lemma keepCommon_filter (ids acc next : list Value) :
  NoDup acc -> (forall x, In x acc -> ~ In x next) ->
  fold_left (fun next id =>
               if setHas sameValueZero ids id
               then setAdd sameValueZero next id else next) acc next
  = next ++ filter (setHas sameValueZero ids) acc.
Proof.
  revert next. induction acc as [|a acc IH]; intros next N D; simpl.
  - now rewrite app_nil_r.
  - inversion N as [|? ? Na Nacc]; subst.
    destruct (setHas sameValueZero ids a) eqn:E.
    + assert (S : setAdd sameValueZero next a = next ++ [a]).
      { unfold setAdd. destruct (setHas sameValueZero next a) eqn:H; [|reflexivity].
        apply (setHas_In sameValueZero sameValueZero_eq) in H.
        elim (D a); [now left | exact H]. }
      rewrite S, IH; [now rewrite <- app_assoc | exact Nacc|].
      intros x I Ix. apply in_app_iff in Ix. destruct Ix as [Ix | [<- | []]].
      * apply (D x); [now right | exact Ix].
      * contradiction.
    + apply IH; [exact Nacc|]. intros x I. apply D. now right.
Qed.

Lemma filter_filter (f g : Value -> bool) (l : list Value) :
  filter g (filter f l) = filter (fun x => f x && g x) l.
Proof.
  induction l as [|x l IH]; simpl; [reflexivity|].
  destruct (f x); simpl; [destruct (g x); now rewrite IH | exact IH].
Qed.

Lemma intersect_filter (groups : list (list Match)) (acc : list Value) :
  NoDup acc ->
  intersect (Some acc) groups = Some (filter (inEvery groups) acc).
Proof.
  revert acc. induction groups as [|group groups IH]; intros acc N; simpl.
  - f_equal. unfold inEvery. simpl. clear N.
    induction acc as [|a acc IHa]; simpl; [reflexivity | now rewrite <- IHa].
  - rewrite keepCommon_filter by (tauto || exact N). simpl.
    assert (E : filter (inEvery (group :: groups)) acc
                = filter (inEvery groups) (filter (setHas sameValueZero (groupIds group)) acc)).
    { rewrite filter_filter. reflexivity. }
    rewrite E.
    destruct (filter (setHas sameValueZero (groupIds group)) acc) as [|x kept] eqn:F;
      [reflexivity|].
    apply IH. rewrite <- F. now apply NoDup_filter.
Qed.

(** X11.  The candidate ids of [intersection] are the ids of the first
    group that every other group has too, in the order of the first group
    and each once; without a group there is none. *)
Theorem intersection_filters_the_first_group :
  intersection [] = [] /\
  forall (group : list Match) (groups : list (list Match)),
    intersection (group :: groups) = filter (inEvery groups) (groupIds group) /\
    NoDup (intersection (group :: groups)).
Proof.
  split; [reflexivity|]. intros group groups.
  assert (E : intersection (group :: groups) = filter (inEvery groups) (groupIds group)).
  { unfold intersection. simpl. destruct (groupIds group) as [|x ids] eqn:G; [reflexivity|].
    rewrite intersect_filter; [reflexivity|]. rewrite <- G. apply groupIds_NoDup. }
  split; [exact E|]. rewrite E. apply NoDup_filter, groupIds_NoDup.
Qed.

Lemma candidateIds_NoDup (this : t) (terms : list string) (prefixMode : bool) :
  NoDup (candidateIds this terms prefixMode).
Proof.
  unfold candidateIds. destruct terms as [|term terms]; [constructor|]. simpl map.
  unfold intersection. simpl. destruct (groupIds _) as [|x ids] eqn:G; [constructor|].
  rewrite intersect_filter by (rewrite <- G; apply groupIds_NoDup).
  apply NoDup_filter. rewrite <- G. apply groupIds_NoDup.
Qed.

Lemma candidateIds_In (this : t) (terms : list string) (prefixMode : bool) (id : Value) :
  In id (candidateIds this terms prefixMode) <->
  terms <> [] /\
  forall term, In term terms -> In id (groupIds (lookupTerm this term prefixMode)).
Proof.
  unfold candidateIds. rewrite intersection_In. split.
  - intros [N H]. split; [destruct terms; [now elim N | discriminate]|].
    intros term I. apply H. apply in_map_iff. now exists term.
  - intros [N H]. split; [destruct terms; [now elim N | discriminate]|].
    intros group I. apply in_map_iff in I. destruct I as [term [<- I]]. now apply H.
Qed.

(** X12.  Which documents are candidates depends on the set of the query's
    terms only: writing the terms in another order, or a term twice, gives
    the same candidate ids, up to their order. *)
Theorem candidates_depend_on_the_set_of_terms
  (this : t) (terms terms' : list string) (prefixMode : bool) :
  (forall term, In term terms <-> In term terms') ->
  Permutation (candidateIds this terms prefixMode) (candidateIds this terms' prefixMode).
Proof.
  intros S. apply NoDup_Permutation; try apply candidateIds_NoDup.
  intros id. rewrite !candidateIds_In. split; intros [N H]; split.
  - intros ->. destruct terms as [|term terms]; [now elim N|].
    now apply (S term); left.
  - intros term I. apply H. now apply S.
  - intros ->. destruct terms' as [|term terms']; [now elim N|].
    now apply (S term); left.
  - intros term I. apply H. now apply S.
Qed.

Lemma candidates_depend_on_the_set_of_terms_witness :
  (forall term, In term ["blo"; "daily"] <-> In term ["daily"; "blo"; "daily"]) /\
  Permutation (candidateIds blogIndex ["blo"; "daily"] true)
              (candidateIds blogIndex ["daily"; "blo"; "daily"] true).
Proof.
  assert (S : forall term, In term ["blo"; "daily"] <-> In term ["daily"; "blo"; "daily"])
    by (intros term; simpl; tauto).
  split; [exact S|].
  exact (candidates_depend_on_the_set_of_terms blogIndex _ _ true S).
Defined.

(** X13.  More terms never add a candidate: the candidates of a query
    extended by further terms are among those of the query itself. *)
Theorem more_terms_narrow_the_candidates
  (this : t) (terms more : list string) (prefixMode : bool) (id : Value) :
  terms <> [] ->
  In id (candidateIds this (terms ++ more) prefixMode) ->
  In id (candidateIds this terms prefixMode).
Proof.
  intros N. rewrite !candidateIds_In. intros [_ H]. split; [exact N|].
  intros term I. apply H. apply in_or_app. now left.
Qed.

Lemma more_terms_narrow_the_candidates_witness :
  ["blo"] <> [] /\
  In (VStr "p2") (candidateIds blogIndex (["blo"] ++ ["daily"]) true) /\
  In (VStr "p2") (candidateIds blogIndex ["blo"] true).
Proof.
  assert (N : ["blo"] <> []) by discriminate.
  assert (I : In (VStr "p2") (candidateIds blogIndex (["blo"] ++ ["daily"]) true))
    by (left; reflexivity).
  split; [exact N | split; [exact I|]].
  exact (more_terms_narrow_the_candidates blogIndex ["blo"] ["daily"] true (VStr "p2") N I).
Defined.

(** X14.  Prefix mode only widens a query: every candidate of the exact
    search is a candidate of the prefix search for the same terms. *)
Theorem exact_candidates_are_prefix_candidates
  (this : t) (terms : list string) (id : Value) :
  In id (candidateIds this terms false) -> In id (candidateIds this terms true).
Proof.
  rewrite !candidateIds_In. intros [N H]. split; [exact N|].
  intros term I. specialize (H term I). rewrite groupIds_In in *.
  destruct H as [m [Im K]]. exists m. split; [|exact K].
  apply lookupTerm_exact_In in Im. destruct Im as [E G].
  apply lookupTerm_prefix_In. rewrite E. split; [|apply startsWith_refl].
  now apply (mapGet_some_In String.eqb String.eqb_eq).
Qed.

Lemma exact_candidates_are_prefix_candidates_witness :
  In (VStr "p1") (candidateIds blogIndex ["blog"] false) /\
  In (VStr "p1") (candidateIds blogIndex ["blog"] true).
Proof.
  assert (I : In (VStr "p1") (candidateIds blogIndex ["blog"] false)) by (left; reflexivity).
  split; [exact I|].
  exact (exact_candidates_are_prefix_candidates blogIndex ["blog"] (VStr "p1") I).
Defined.

(** *** Scores on a well-formed instance *)

Lemma lookupTerm_In_index (this : t) (term : string) (prefixMode : bool) (m : Match) :
  In m (lookupTerm this term prefixMode) -> In (token m, docs m) (invertedIndex this).
Proof.
  destruct prefixMode; intros I.
  - now apply lookupTerm_prefix_In in I.
  - apply lookupTerm_exact_In in I. destruct I as [E G]. rewrite E.
    now apply (mapGet_some_In String.eqb String.eqb_eq).
Qed.

Lemma sum_counts_bound (zs : list Z) :
  (forall z, In z zs -> 0 <= z) ->
  0 <= fold_right Z.add 0 zs /\
  ((exists z, In z zs /\ 1 <= z) -> 1 <= fold_right Z.add 0 zs).
Proof.
  induction zs as [|x zs IH]; intros P; simpl.
  - split; [lia | intros [z [[] _]]].
  - destruct IH as [S B]; [intros z I; apply P; now right|].
    pose proof (P x (or_introl eq_refl)) as Px. split; [lia|].
    intros [z [[<- | I] L]]; [lia|].
    assert (1 <= fold_right Z.add 0 zs) by (apply B; now exists z). lia.
Qed.

Lemma matchedCounts_bound (id : Value) (groups : list (list Match)) :
  (forall group, In group groups ->
     (forall m, In m group -> 0 <= countFor id m) /\
     (exists m, In m group /\ 1 <= countFor id m)) ->
  Z.of_nat (List.length groups) <= matchedCounts id groups.
Proof.
  unfold matchedCounts. induction groups as [|group groups IH]; intros H.
  - simpl. lia.
  - simpl List.concat. rewrite map_app, fold_right_app.
    assert (S : forall (l : list Z) (z : Z),
               fold_right Z.add z l = fold_right Z.add 0 l + z).
    { induction l as [|x l IHl]; intros z; simpl; [lia | rewrite IHl; lia]. }
    rewrite S.
    assert (R : Z.of_nat (List.length groups)
                <= fold_right Z.add 0 (map (countFor id) (List.concat groups))).
    { apply IH. intros g I. apply H. now right. }
    destruct (H group (or_introl eq_refl)) as [P [m [Im L]]].
    destruct (sum_counts_bound (map (countFor id) group)) as [_ B].
    { intros z I. apply in_map_iff in I. destruct I as [m' [<- I]]. now apply P. }
    assert (1 <= fold_right Z.add 0 (map (countFor id) group)).
    { apply B. exists (countFor id m). split; [|exact L]. apply in_map_iff. now exists m. }
    simpl List.length. lia.
Qed.

Lemma key_has_value (docMap : list (Value * Z)) (id : Value) :
  In id (map fst docMap) -> exists c, mapGet sameValueZero docMap id = Some c.
Proof.
  intros I. destruct (mapGet sameValueZero docMap id) as [c|] eqn:G; [now exists c|].
  apply (mapGet_none_keys sameValueZero sameValueZero_eq) in G. contradiction.
Qed.

(** X15.  On a well-formed instance every term of the query adds at least
    1 to the score: a result of a query with n terms was given a score of at
    least n by [scoreDocument], so a matching document never scores 0. *)
Theorem results_score_at_least_one_per_term
  (this : t) (query : Value) (options : Options) (r : Value) :
  wellFormed this ->
  tokenize query <> [] ->
  In r (search this query options) ->
  exists id document,
    In (id, document) (documents this) /\
    r = withScore (scoreDocument id (matchGroupsOf this (tokenize query) (prefix options)))
                  document /\
    Z.of_nat (List.length (tokenize query))
    <= scoreDocument id (matchGroupsOf this (tokenize query) (prefix options)).
Proof.
  intros (_ & _ & Hi & _) N I.
  apply (proj1 (search_In_unsorted this query options r)) in I.
  unfold unsorted in I. unfold matchGroupsOf.
  destruct (tokenize query) as [|first others] eqn:T; [now elim N|].
  cbv zeta in I. set (terms := first :: others) in *.
  destruct (existsb _ _); [contradiction|].
  apply scored_In in I. destruct I as (id & document & C & G & _ & _ & ->).
  exists id, document. split; [now apply mapGet_In | split; [reflexivity|]].
  rewrite scoreDocument_sum.
  replace (List.length terms) with (List.length (map (fun term => lookupTerm this term (prefix options)) terms))
    by apply List.length_map.
  apply matchedCounts_bound. intros group Ig.
  apply intersection_In in C. destruct C as [_ C]. specialize (C group Ig).
  apply in_map_iff in Ig. destruct Ig as [term [<- It]].
  assert (P : forall m, In m (lookupTerm this term (prefix options)) ->
                forall c, mapGet sameValueZero (docs m) id = Some c -> 1 <= c).
  { intros m Im c Gc. apply lookupTerm_In_index in Im.
    destruct (Hi _ _ Im) as (_ & _ & _ & Hc).
    apply (mapGet_some_In sameValueZero sameValueZero_eq) in Gc. now apply (Hc id c). }
  split.
  - intros m Im. unfold countFor.
    destruct (mapGet sameValueZero (docs m) id) as [c|] eqn:Gc; [|lia].
    pose proof (P m Im c Gc). lia.
  - apply groupIds_In in C. destruct C as [m [Im K]]. exists m. split; [exact Im|].
    destruct (key_has_value _ _ K) as [c Gc]. unfold countFor. rewrite Gc. now apply (P m Im).
Qed.

Lemma results_score_at_least_one_per_term_witness :
  wellFormed helloIndex /\
  tokenize (VStr "hello world") <> [] /\
  In (withScore 2 helloWorld) (search helloIndex (VStr "hello world") (mkOptions None false)) /\
  exists id document,
    In (id, document) (documents helloIndex) /\
    withScore 2 helloWorld
    = withScore (scoreDocument id
                   (matchGroupsOf helloIndex (tokenize (VStr "hello world")) false))
                document /\
    Z.of_nat (List.length (tokenize (VStr "hello world")))
    <= scoreDocument id (matchGroupsOf helloIndex (tokenize (VStr "hello world")) false).
Proof.
  assert (N : tokenize (VStr "hello world") <> []) by discriminate.
  assert (I : In (withScore 2 helloWorld)
                 (search helloIndex (VStr "hello world") (mkOptions None false)))
    by (left; reflexivity).
  split; [exact helloIndex_wellFormed | split; [exact N | split; [exact I|]]].
  exact (results_score_at_least_one_per_term helloIndex (VStr "hello world")
           (mkOptions None false) _ helloIndex_wellFormed N I).
Defined.

(** *** filterDocument: when it throws *)

Import ControllerFacts.

Lemma year_throws (element : option string) (doc : Value) :
  (if truthy (selected element) then
     if truthy (getProp doc "date_iso") then
       match getProp doc "date_iso" with
       | VStr s =>
           if negb (strictEquals (VStr (substring 0 4 s)) (selected element))
           then Returns false else Returns true
       | _ => TypeError
       end
     else if negb (strictEquals (VStr EmptyString) (selected element))
          then Returns false else Returns true
   else Returns true) = TypeError <->
  (exists v, chosen element v) /\
  truthy (getProp doc "date_iso") = true /\
  forall s, getProp doc "date_iso" <> VStr s.
Proof.
  destruct (selected_cases element) as [[U N] | [v [C [-> T]]]].
  - rewrite U. split; [discriminate|]. intros [[v C] _]. now elim (N v).
  - rewrite T. destruct (getProp doc "date_iso") as [| |b|n|s|items|props]; simpl.
    + destruct (negb _); split; try discriminate; intros (_ & D & _); discriminate D.
    + destruct (negb _); split; try discriminate; intros (_ & D & _); discriminate D.
    + destruct b.
      * split; [intros _|reflexivity]. split; [now exists v|]. split; [reflexivity | discriminate].
      * destruct (negb _); split; try discriminate; intros (_ & D & _); discriminate D.
    + destruct (Z.eqb_spec n 0); simpl.
      * destruct (negb _); split; try discriminate; intros (_ & D & _); discriminate D.
      * split; [intros _|reflexivity]. split; [now exists v|]. split; [reflexivity | discriminate].
    + destruct s as [|c s]; simpl.
      * destruct (negb _); split; try discriminate; intros (_ & D & _); discriminate D.
      * destruct (negb _); split; try discriminate; intros (_ & _ & D);
          now elim (D (String c s)).
    + split; [intros _|reflexivity]. split; [now exists v|]. split; [reflexivity | discriminate].
    + split; [intros _|reflexivity]. split; [now exists v|]. split; [reflexivity | discriminate].
Qed.

(** X16.  [filterDocument] rejects every falsy value, and it throws (the
    TypeError of calling [substring] on something that is not a string)
    exactly for a document that passes the language, type and tag filters
    while a year is selected and its [date_iso] is truthy but not a
    string. *)
Theorem filterDocument_throws_iff_date_iso_is_no_string
  (filterElements : FilterElements) (doc : Value) :
  (truthy doc = false -> filterDocument filterElements doc = Returns false) /\
  (filterDocument filterElements doc = TypeError <->
   truthy doc = true /\
   (forall v, chosen (language filterElements) v -> getProp doc "language" = VStr v) /\
   (forall v, chosen (type filterElements) v -> documentType doc = VStr v) /\
   (forall v, chosen (tag filterElements) v ->
      exists items, getProp doc "tags" = VArr items /\ In (VStr v) items) /\
   (exists v, chosen (year filterElements) v) /\
   truthy (getProp doc "date_iso") = true /\
   forall s, getProp doc "date_iso" <> VStr s).
Proof.
  split.
  - intros F. unfold filterDocument. now rewrite F.
  - unfold filterDocument. destruct (truthy doc); cbv zeta; simpl negb; cbv iota.
    + rewrite <- language_check, <- type_check, <- tag_check, <- year_throws.
      destruct (truthy (selected (language filterElements)) && _);
        [split; [discriminate | intros (_ & D & _); discriminate D]|].
      destruct (truthy (selected (type filterElements)) && _);
        [split; [discriminate | intros (_ & _ & D & _); discriminate D]|].
      destruct (truthy (selected (tag filterElements)) && _);
        [split; [discriminate | intros (_ & _ & _ & D & _); discriminate D]|].
      tauto.
    + split; [discriminate | intros (D & _); discriminate D].
Qed.

(** A document whose date is a number, under a selected year. *)
Example filterDocument_throws_on_numeric_date :
  filterDocument (mkFilters None None None (Some "2024"))
                 (VObj [("id", VStr "n"); ("date_iso", VNum 20240101)]) = TypeError.
Proof. reflexivity. Qed.

(** *** escapeHtml *)

Lemma escapeChar_occurs (c ch : ascii) :
  isHtmlSpecial c = true -> Ascii.eqb c "&" = false -> occursIn c (escapeChar ch) = false.
Proof.
  unfold escapeChar, isHtmlSpecial. simpl. intros S A. rewrite A in S. simpl in S.
  destruct (Ascii.eqb_spec ch "&") as [-> | N1].
  { repeat (apply orb_true_iff in S; destruct S as [S | S]; try discriminate S);
      apply Ascii.eqb_eq in S; subst c; reflexivity. }
  destruct (Ascii.eqb_spec ch "<") as [-> | N2].
  { repeat (apply orb_true_iff in S; destruct S as [S | S]; try discriminate S);
      apply Ascii.eqb_eq in S; subst c; reflexivity. }
  destruct (Ascii.eqb_spec ch ">") as [-> | N3].
  { repeat (apply orb_true_iff in S; destruct S as [S | S]; try discriminate S);
      apply Ascii.eqb_eq in S; subst c; reflexivity. }
  destruct (Ascii.eqb_spec ch "034") as [-> | N4].
  { repeat (apply orb_true_iff in S; destruct S as [S | S]; try discriminate S);
      apply Ascii.eqb_eq in S; subst c; reflexivity. }
  destruct (Ascii.eqb_spec ch "'") as [-> | N5].
  { repeat (apply orb_true_iff in S; destruct S as [S | S]; try discriminate S);
      apply Ascii.eqb_eq in S; subst c; reflexivity. }
  simpl. rewrite orb_false_r. apply Ascii.eqb_neq.
  repeat (apply orb_true_iff in S; destruct S as [S | S]; try discriminate S);
    apply Ascii.eqb_eq in S; subst c; assumption.
Qed.

Lemma escapeChar_plain (ch : ascii) :
  isHtmlSpecial ch = false -> escapeChar ch = String ch EmptyString.
Proof.
  unfold isHtmlSpecial, escapeChar. simpl. intros H.
  repeat (apply orb_false_iff in H; destruct H as [?E H]).
  now rewrite E, E0, E1, E2, E3.
Qed.

(** X17.  The text [escapeHtml] returns holds no angle bracket and no
    quote, single or double, so it cannot open a tag or leave an attribute;
    a text without any of the five special characters is returned as it
    is. *)
Theorem escapeHtml_leaves_no_markup_character (value : string) :
  (forall c, isHtmlSpecial c = true -> Ascii.eqb c "&" = false ->
     occursIn c (escapeHtml value) = false) /\
  (anyChar isHtmlSpecial value = false -> escapeHtml value = value).
Proof.
  split.
  - intros c S A. induction value as [|ch value IH]; simpl; [reflexivity|].
    now rewrite occursIn_app, IH, (escapeChar_occurs c ch S A).
  - induction value as [|ch value IH]; simpl; [reflexivity|]. intros H.
    apply orb_false_iff in H. destruct H as [Hc Hv].
    now rewrite (escapeChar_plain ch Hc), IH.
Qed.

Lemma escapeChar_cases (ch : ascii) :
  (ch = "&"%char /\ escapeChar ch = "&amp;") \/
  (ch = "<"%char /\ escapeChar ch = "&lt;") \/
  (ch = ">"%char /\ escapeChar ch = "&gt;") \/
  (ch = "034"%char /\ escapeChar ch = "&quot;") \/
  (ch = "'"%char /\ escapeChar ch = "&#39;") \/
  (ch <> "&"%char /\ escapeChar ch = String ch EmptyString).
Proof.
  unfold escapeChar.
  destruct (Ascii.eqb_spec ch "&"); [now left|].
  destruct (Ascii.eqb_spec ch "<"); [right; now left|].
  destruct (Ascii.eqb_spec ch ">"); [right; right; now left|].
  destruct (Ascii.eqb_spec ch "034"); [right; right; right; now left|].
  destruct (Ascii.eqb_spec ch "'"); [right; right; right; right; now left|].
  right. right. right. right. right. now split.
Qed.

(** X18.  [escapeHtml] loses nothing: two texts with the same escaped form
    are the same text. *)
Theorem escapeHtml_is_injective (a b : string) :
  escapeHtml a = escapeHtml b -> a = b.
Proof.
  revert b. induction a as [|ca a IH]; intros b H.
  - destruct b as [|cb b]; [reflexivity|]. simpl in H.
    destruct (escapeChar_cases cb) as [[_ E] | [[_ E] | [[_ E] | [[_ E] | [[_ E] | [_ E]]]]]];
      rewrite E in H; discriminate H.
  - destruct b as [|cb b]; simpl in H.
    + destruct (escapeChar_cases ca) as [[_ E] | [[_ E] | [[_ E] | [[_ E] | [[_ E] | [_ E]]]]]];
        rewrite E in H; discriminate H.
    + destruct (escapeChar_cases ca) as [[A E] | [[A E] | [[A E] | [[A E] | [[A E] | [A E]]]]]];
        destruct (escapeChar_cases cb)
          as [[B F] | [[B F] | [[B F] | [[B F] | [[B F] | [B F]]]]]];
        rewrite E, F in H; simpl in H;
        try discriminate H;
        try (injection H as H; subst; f_equal; now apply IH);
        try (injection H as Hc H; subst; congruence).
Qed.

Lemma escapeHtml_is_injective_witness :
  escapeHtml "a<b" = escapeHtml "a<b" /\ "a<b" = "a<b".
Proof.
  split; [reflexivity|].
  exact (escapeHtml_is_injective "a<b" "a<b" eq_refl).
Defined.

(** *** escapeRegex *)

Lemma backslash_is_special (c : ascii) :
  isRegexSpecial c = false -> Ascii.eqb c "\" = false.
Proof.
  intros H. destruct (Ascii.eqb_spec c "\") as [-> | N]; [discriminate H | reflexivity].
Qed.

(** X19.  The pattern [escapeRegex] returns is made of literal characters
    only and spells the text it was given: no character of the class stays
    unescaped, and no other character is changed. *)
Theorem escapeRegex_spells_its_argument (value : string) :
  readLiterals (escapeRegex value) = Some value.
Proof.
  induction value as [|c value IH]; [reflexivity|]. simpl.
  destruct (isRegexSpecial c) eqn:S.
  - simpl. rewrite S, IH. reflexivity.
  - simpl. rewrite (backslash_is_special c S), S, IH. reflexivity.
Qed.

(** *** highlightText: tokens that do not occur *)

Lemma wrapMatches_without_match (token s : string) :
  matchesSomewhere token s = false -> wrapMatches token s O = s.
Proof.
  induction s as [|c s IH]; [reflexivity|]. intros H. simpl in H.
  apply orb_false_iff in H. destruct H as [M R].
  unfold wrapMatches; fold wrapMatches. rewrite M. now rewrite IH.
Qed.

Lemma arraySort_In {A : Type} (compare : A -> A -> Number) (l : list A) (x : A) :
  In x (arraySort compare l) -> In x l.
Proof.
  apply Permutation_in, Permutation_sym, arraySort_perm.
Qed.

(** X20.  When none of the non-empty tokens occurs in the escaped text,
    whatever the case of the letters, [highlightText] returns the escaped
    text without any marker. *)
Theorem highlightText_without_occurrence (text : string) (tokens : list string) :
  (forall token, In token tokens -> token <> EmptyString ->
     matchesSomewhere token (escapeHtml text) = false) ->
  highlightText text tokens = escapeHtml text.
Proof.
  intros H. unfold highlightText.
  destruct (allWhiteSpace text || _); [reflexivity|].
  assert (F : forall token, In token (sortedTokens tokens) ->
                matchesSomewhere token (escapeHtml text) = false).
  { intros token I. unfold sortedTokens in I. apply arraySort_In in I.
    apply filter_In in I. destruct I as [I N]. apply H; [exact I|].
    apply negb_true_iff, String.eqb_neq in N. exact N. }
  induction (sortedTokens tokens) as [|token rest IH]; simpl; [reflexivity|].
  rewrite wrapMatches_without_match by (apply F; now left).
  apply IH. intros t I. apply F. now right.
Qed.

Lemma highlightText_without_occurrence_witness :
  (forall token, In token ["rocq"; ""] -> token <> EmptyString ->
     matchesSomewhere token (escapeHtml "Tom & Jerry") = false) /\
  highlightText "Tom & Jerry" ["rocq"; ""] = "Tom &amp; Jerry".
Proof.
  assert (H : forall token, In token ["rocq"; ""] -> token <> EmptyString ->
                matchesSomewhere token (escapeHtml "Tom & Jerry") = false).
  { intros token [<- | [<- | []]] N; [reflexivity | now elim N]. }
  split; [exact H|].
  exact (highlightText_without_occurrence "Tom & Jerry" ["rocq"; ""] H).
Defined.

(** *** dedupe *)

Lemma dedupe_loop (items : list Value) (kept : list string) :
  NoDup kept ->
  exists kept',
    fold_left dedupeStep items (kept, kept) = (kept', kept') /\
    NoDup kept' /\
    (exists added, kept' = kept ++ added) /\
    forall x, In x kept' <->
      In x kept \/ exists item, In item items /\ toLowerCase (toStr item) = x.
Proof.
  revert kept. induction items as [|item items IH]; intros kept N; simpl.
  - exists kept. repeat split; try assumption.
    + exists []. now rewrite app_nil_r.
    + tauto.
    + intros [I | [item [[] _]]]. exact I.
  - unfold dedupeStep at 2. simpl.
    destruct (setHas String.eqb kept (toLowerCase (toStr item))) eqn:E.
    + apply (setHas_In String.eqb String.eqb_eq) in E.
      destruct (IH kept N) as (kept' & F & N' & A & M). exists kept'.
      repeat split; try assumption.
      * intros I. apply M in I. destruct I as [I | [it [Ii Ei]]]; [now left | right].
        exists it. split; [now right | exact Ei].
      * intros [I | [it [[<- | Ii] Ei]]]; apply M.
        -- now left.
        -- left. now rewrite <- Ei.
        -- right. now exists it.
    + assert (S : setAdd String.eqb kept (toLowerCase (toStr item))
                  = kept ++ [toLowerCase (toStr item)]).
      { unfold setAdd. now rewrite E. }
      rewrite S.
      assert (N1 : NoDup (kept ++ [toLowerCase (toStr item)])).
      { apply NoDup_app; [exact N | repeat constructor; tauto|].
        intros x I [<- | []]. apply (setHas_In String.eqb String.eqb_eq) in I. congruence. }
      destruct (IH _ N1) as (kept' & F & N' & [added A] & M). exists kept'.
      repeat split; try assumption.
      * exists (toLowerCase (toStr item) :: added). rewrite A, <- app_assoc. reflexivity.
      * intros I. apply M in I. destruct I as [I | [it [Ii Ei]]].
        -- apply in_app_iff in I. destruct I as [I | [<- | []]]; [now left | right].
           exists item. split; [now left | reflexivity].
        -- right. exists it. split; [now right | exact Ei].
      * intros [I | [it [[<- | Ii] Ei]]]; apply M.
        -- left. apply in_or_app. now left.
        -- left. apply in_or_app. right. left. exact Ei.
        -- right. now exists it.
Qed.

Lemma dedupe_fixed (strings seen : list string) :
  NoDup (seen ++ strings) ->
  (forall x, In x strings -> toLowerCase x = x) ->
  fold_left dedupeStep (map VStr strings) (seen, seen) = (seen ++ strings, seen ++ strings).
Proof.
  revert seen. induction strings as [|x strings IH]; intros seen N L; simpl.
  - now rewrite app_nil_r.
  - unfold dedupeStep at 2. simpl. rewrite (L x) by now left.
    assert (E : setHas String.eqb seen x = false).
    { destruct (setHas String.eqb seen x) eqn:E; [|reflexivity].
      apply (setHas_In String.eqb String.eqb_eq) in E.
      apply NoDup_remove_2 in N. elim N. apply in_or_app. now left. }
    rewrite E. unfold setAdd. rewrite E.
    rewrite IH.
    + now rewrite <- !app_assoc.
    + now rewrite <- app_assoc.
    + intros y I. apply L. now right.
Qed.

(** X21.  [dedupe] returns the lower-cased string forms of the items, each
    once and in the order of their first occurrence: the list has no
    duplicate, holds exactly the lower-cased forms of the items, only grows
    at its end when items are appended, and running [dedupe] on its own
    result changes nothing. *)
Theorem dedupe_keeps_each_lower_cased_item_once (items : list Value) :
  NoDup (dedupe items) /\
  (forall x, In x (dedupe items) <->
     exists item, In item items /\ toLowerCase (toStr item) = x) /\
  (forall more, exists added, dedupe (items ++ more) = dedupe items ++ added) /\
  dedupe (map VStr (dedupe items)) = dedupe items.
Proof.
  unfold dedupe.
  destruct (dedupe_loop items [] (NoDup_nil _)) as (kept & F & N & _ & M).
  split; [now rewrite F|]. split; [|split].
  - intros x. rewrite F. simpl. rewrite M. simpl. tauto.
  - intros more. rewrite fold_left_app, F.
    destruct (dedupe_loop more kept N) as (kept' & F' & _ & [added A] & _).
    rewrite F'. simpl. now exists added.
  - rewrite F. simpl. rewrite (dedupe_fixed kept []); [reflexivity | exact N|].
    intros x I. apply M in I. destruct I as [[] | [item [_ <-]]].
    apply toLowerCase_idempotent.
Qed.

(** "Blog" and "blog" are one token for highlighting; the first place
    decides the order. *)
Example dedupe_first_seen_order :
  dedupe [VStr "Blog"; VStr "index"; VStr "blog"; VStr "INDEX"; VStr "x"]
  = ["blog"; "index"; "x"].
Proof. reflexivity. Qed.

(** *** tagSlug *)

Lemma lower_keeps_space (c : ascii) : isWhiteSpace (toLowerChar c) = isWhiteSpace c.
Proof. destruct c as [[] [] [] [] [] [] [] []]; reflexivity. Qed.

Lemma lower_not_upper (c : ascii) : isUpper (toLowerChar c) = false.
Proof. destruct c as [[] [] [] [] [] [] [] []]; reflexivity. Qed.

Lemma not_upper_fixed (c : ascii) : isUpper c = false -> toLowerChar c = c.
Proof. unfold toLowerChar. now intros ->. Qed.

Lemma dashRuns_plain (s : string) (inRun : bool) :
  anyChar isWhiteSpace (dashRuns s inRun) = false.
Proof.
  revert inRun. induction s as [|c s IH]; intros inRun; simpl; [reflexivity|].
  destruct (isWhiteSpace c) eqn:E.
  - destruct inRun; [apply IH|]. simpl. apply IH.
  - simpl. rewrite E. apply IH.
Qed.

Lemma dashRuns_no_upper (s : string) (inRun : bool) :
  anyChar isUpper s = false -> anyChar isUpper (dashRuns s inRun) = false.
Proof.
  revert inRun. induction s as [|c s IH]; intros inRun H; simpl; [reflexivity|].
  simpl in H. apply orb_false_iff in H. destruct H as [Hc Hs].
  destruct (isWhiteSpace c).
  - destruct inRun; [now apply IH|]. simpl. now apply IH.
  - simpl. rewrite Hc. now apply IH.
Qed.

Lemma toLowerCase_no_upper (s : string) : anyChar isUpper (toLowerCase s) = false.
Proof.
  induction s as [|c s IH]; simpl; [reflexivity|]. now rewrite lower_not_upper, IH.
Qed.

Lemma no_space_trimmed (s : string) :
  anyChar isWhiteSpace s = false -> trim s = s.
Proof.
  intros H. unfold trim.
  assert (S : trimStart s = s).
  { destruct s as [|c s]; [reflexivity|]. simpl in *.
    apply orb_false_iff in H. destruct H as [Hc _]. now rewrite Hc. }
  rewrite S. clear S. induction s as [|c s IH]; [reflexivity|]. simpl in *.
  apply orb_false_iff in H. destruct H as [Hc Hs]. rewrite (IH Hs), Hc.
  destruct s; reflexivity.
Qed.

Lemma no_upper_lower (s : string) : anyChar isUpper s = false -> toLowerCase s = s.
Proof.
  induction s as [|c s IH]; [reflexivity|]. simpl. intros H.
  apply orb_false_iff in H. destruct H as [Hc Hs].
  now rewrite (not_upper_fixed c Hc), IH.
Qed.

Lemma no_space_dashRuns (s : string) :
  anyChar isWhiteSpace s = false -> dashRuns s false = s.
Proof.
  induction s as [|c s IH]; [reflexivity|]. simpl. intros H.
  apply orb_false_iff in H. destruct H as [Hc Hs]. now rewrite Hc, IH.
Qed.

(** X22.  The slug [tagSlug] returns holds no white space and no upper-case
    letter, and it is its own slug: [tagSlug] applied to a slug returns
    it. *)
Theorem tagSlug_is_a_fixed_point (tag : Value) :
  anyChar isWhiteSpace (tagSlug tag) = false /\
  anyChar isUpper (tagSlug tag) = false /\
  tagSlug (VStr (tagSlug tag)) = tagSlug tag.
Proof.
  assert (W : anyChar isWhiteSpace (tagSlug tag) = false) by apply dashRuns_plain.
  assert (U : anyChar isUpper (tagSlug tag) = false)
    by apply dashRuns_no_upper, toLowerCase_no_upper.
  split; [exact W | split; [exact U|]].
  set (slug := tagSlug tag) in *. unfold tagSlug.
  assert (S : toStr (orElse (VStr slug) (VStr EmptyString)) = slug).
  { unfold orElse. simpl. destruct slug; reflexivity. }
  rewrite S, (no_space_trimmed slug W), (no_upper_lower slug U).
  now apply no_space_dashRuns.
Qed.

(** A tag with blanks around and inside it. *)
Example tagSlug_github_pages : tagSlug (VStr "  GitHub   Pages ") = "github-pages".
Proof. reflexivity. Qed.

(** *** applySort *)

Lemma byNewest_follows (results : list Value) :
  forallb plainTimestamp results = true -> follows byNewest recencyRank results.
Proof.
  intros P a b Ia Ib. rewrite forallb_forall in P.
  assert (T : forall r, In r results ->
                orElse (getProp r "timestamp") (VNum 0) = VNum (timestampOf r)).
  { intros r I. specialize (P r I). unfold plainTimestamp, timestampOf, orElse in *.
    destruct (getProp r "timestamp") as [| |x|n|s|items|props]; simpl in *;
      try reflexivity; try discriminate P.
    - destruct x; [discriminate P | reflexivity].
    - destruct (Z.eqb_spec n 0) as [-> | _]; reflexivity.
    - apply negb_true_iff in P. now rewrite P. }
  unfold comesAfter, byNewest, ranksBelow, recencyRank. rewrite (T a Ia), (T b Ib). simpl.
  rewrite andb_false_r, orb_false_r.
  destruct (Z.ltb_spec 0 (timestampOf b - timestampOf a));
    destruct (Z.ltb_spec (timestampOf a) (timestampOf b)); try lia; reflexivity.
Qed.

(** X23.  [applySort] never loses or adds a result.  Without a sort select,
    or in any mode but "newest", it returns the list as it is; in "newest"
    mode, for results whose timestamp is a number or missing, it orders them
    by descending timestamp (0 when missing) whatever their scores, and keeps
    the engine's order among results of equal timestamp. *)
Theorem applySort_newest_orders_by_timestamp :
  (forall sortSelect results, Permutation results (applySort sortSelect results)) /\
  (forall mode results,
     mode <> "newest" ->
     applySort (Some mode) results = results /\ applySort None results = results) /\
  (forall results,
     forallb plainTimestamp results = true ->
     descending recencyRank (applySort (Some "newest") results) /\
     stableOrderOf recencyRank results (applySort (Some "newest") results)).
Proof.
  split; [|split].
  - intros [mode|] results; simpl; [|reflexivity].
    destruct (mode =? "newest")%string; [apply arraySort_perm | reflexivity].
  - intros mode results N. apply String.eqb_neq in N. simpl. now rewrite N.
  - intros results P. simpl. now apply arraySort_stable, byNewest_follows.
Qed.

Lemma applySort_newest_orders_by_timestamp_witness :
  forallb plainTimestamp (search helloIndex (VStr "world hello") (mkOptions None true)) = true /\
  "relevance" <> "newest" /\
  applySort (Some "newest") [withScore 9 helloWorld; withScore 1 helloThere]
  = [withScore 1 helloThere; withScore 9 helloWorld] /\
  descending recencyRank
    (applySort (Some "newest") (search helloIndex (VStr "world hello") (mkOptions None true))).
Proof.
  assert (P : forallb plainTimestamp
                (search helloIndex (VStr "world hello") (mkOptions None true)) = true)
    by reflexivity.
  split; [exact P|]. split; [discriminate|]. split; [reflexivity|].
  exact (proj1 (proj2 (proj2 applySort_newest_orders_by_timestamp) _ P)).
Defined.

(** *** The paragraphs of a farcaster card *)

Lemma anyChar_app (class : ascii -> bool) (s u : string) :
  anyChar class (s ++ u) = anyChar class s || anyChar class u.
Proof.
  induction s as [|c s IH]; simpl; [reflexivity|]. now rewrite IH, orb_assoc.
Qed.

Lemma breakLines_no_newline (segment : string) :
  anyChar (Ascii.eqb newline) (breakLines segment) = false.
Proof.
  induction segment as [|c segment IH]; [reflexivity|].
  unfold breakLines; fold breakLines.
  destruct (Ascii.eqb c newline) eqn:E.
  - rewrite anyChar_app, IH. reflexivity.
  - change (anyChar (Ascii.eqb newline) (String c (breakLines segment)))
      with (Ascii.eqb newline c || anyChar (Ascii.eqb newline) (breakLines segment)).
    now rewrite Ascii.eqb_sym, E, IH.
Qed.

Lemma concat_no_newline (pieces : list string) :
  (forall piece, In piece pieces -> anyChar (Ascii.eqb newline) piece = false) ->
  anyChar (Ascii.eqb newline) (String.concat EmptyString pieces) = false.
Proof.
  induction pieces as [|piece pieces IH]; intros H; [reflexivity|].
  destruct pieces as [|next pieces].
  - apply H. now left.
  - change (String.concat EmptyString (piece :: next :: pieces))
      with (piece ++ EmptyString ++ String.concat EmptyString (next :: pieces))%string.
    rewrite !anyChar_app, (H piece (or_introl eq_refl)), IH; [reflexivity|].
    intros p I. apply H. now right.
Qed.

(** X24.  The markup [renderFarcasterSummary] builds from the highlighted
    text holds no newline: every single newline has become a line break and
    every run of newlines a paragraph boundary; an empty text gives no
    markup at all. *)
Theorem farcasterParagraphs_has_no_newline (highlighted : string) :
  anyChar (Ascii.eqb newline) (farcasterParagraphs highlighted) = false /\
  farcasterParagraphs EmptyString = EmptyString.
Proof.
  split; [|reflexivity]. unfold farcasterParagraphs.
  destruct highlighted as [|c rest]; [reflexivity|].
  apply concat_no_newline. intros piece I.
  apply in_map_iff in I. destruct I as [segment [<- I]].
  apply filter_In in I. destruct I as [I _].
  apply in_map_iff in I. destruct I as [raw [<- _]].
  rewrite !anyChar_app, breakLines_no_newline. reflexivity.
Qed.

Import Paragraphs.

Lemma splitParagraphs_single (s current : string) :
  hasBlankLine s = false ->
  splitParagraphs s current O = [(current ++ s)%string] /\
  (startsWithNewline s = false ->
   splitParagraphs s current (S O) = [(current ++ String newline s)%string]).
Proof.
  revert current. induction s as [|c s IH]; intros current H.
  - split; [simpl; now rewrite append_empty_r | reflexivity].
  - assert (Hs : hasBlankLine s = false /\
                 (Ascii.eqb c newline = true -> startsWithNewline s = false)).
    { destruct s as [|d s]; [split; [reflexivity | reflexivity]|].
      change (hasBlankLine (String c (String d s)))
        with ((Ascii.eqb c newline && Ascii.eqb d newline) || hasBlankLine (String d s)) in H.
      apply orb_false_iff in H. destruct H as [H1 H2]. split; [exact H2|].
      intros E. rewrite E in H1. exact H1. }
    destruct Hs as [Hs Hn].
    unfold splitParagraphs; fold splitParagraphs.
    destruct (Ascii.eqb c newline) eqn:E.
    + split.
      * destruct (IH current Hs) as [_ B]. rewrite (B (Hn eq_refl)).
        apply Ascii.eqb_eq in E. now subst c.
      * intros F. simpl in F. congruence.
    + split.
      * destruct (IH (current ++ String c EmptyString)%string Hs) as [A _].
        rewrite A, append_assoc. reflexivity.
      * intros _.
        destruct (IH (current ++ String newline (String c EmptyString))%string Hs) as [A _].
        rewrite A, append_assoc. reflexivity.
Qed.

(** X25.  A highlighted text without a blank line is a single paragraph:
    [split] returns the text itself, so the card holds one [<p>] element
    with the text, its newlines turned into line breaks (or nothing when
    that is blank). *)
Theorem text_without_blank_line_is_one_paragraph (highlighted : string) :
  highlighted <> EmptyString ->
  hasBlankLine highlighted = false ->
  splitParagraphs highlighted EmptyString O = [highlighted] /\
  farcasterParagraphs highlighted =
  if (trim (breakLines highlighted) =? EmptyString)%string then EmptyString
  else ("<p>" ++ breakLines highlighted ++ "</p>")%string.
Proof.
  intros N H. destruct (splitParagraphs_single highlighted EmptyString H) as [S _].
  simpl in S. split; [exact S|].
  unfold farcasterParagraphs. destruct highlighted as [|c rest]; [now elim N|].
  rewrite S. cbn [map filter].
  destruct (trim (breakLines (String c rest)) =? EmptyString)%string; reflexivity.
Qed.

Lemma text_without_blank_line_is_one_paragraph_witness :
  "gm" <> EmptyString /\ hasBlankLine "gm" = false /\
  splitParagraphs "gm" EmptyString O = ["gm"] /\
  farcasterParagraphs "gm" = "<p>gm</p>".
Proof.
  assert (N : "gm" <> EmptyString) by discriminate.
  split; [exact N | split; [reflexivity|]].
  exact (text_without_blank_line_is_one_paragraph "gm" N eq_refl).
Defined.

(** *** add keeps what was indexed *)

Lemma mapSet_In_or_replaced {V : Type} (m : list (string * V)) (key key' : string) (v v' : V) :
  In (key, v) m ->
  In (key, v) (mapSet String.eqb m key' v') \/
  (key = key' /\ mapGet String.eqb m key' = Some v).
Proof.
  induction m as [|[k x] m IH]; simpl; [contradiction|].
  destruct (String.eqb_spec k key') as [-> | N]; intros [E | I].
  - injection E as <- <-. right. now split.
  - left. simpl. now right.
  - injection E as <- <-. left. simpl. now left.
  - destruct (IH I) as [H | H]; [left; simpl; now right | now right].
Qed.

Lemma addToken_keeps_ids (id id' : Value) (index : list (string * list (Value * Z)))
  (tok tok' : string) :
  (exists docMap, In (tok, docMap) index /\ In id (map fst docMap)) ->
  exists docMap, In (tok, docMap) (addToken id' index tok') /\ In id (map fst docMap).
Proof.
  intros [docMap [I K]]. unfold addToken.
  set (new := mapSet sameValueZero _ id' _).
  destruct (mapSet_In_or_replaced index tok tok' docMap new I) as [H | [-> G]].
  - now exists docMap.
  - exists new. split; [apply (mapSet_In_new String.eqb String.eqb_eq)|].
    unfold new. rewrite G. now apply mapSet_has_key.
Qed.

Lemma addFields_keeps_ids (id id' document : Value) (fs : list string)
  (index : list (string * list (Value * Z))) (tok : string) :
  (exists docMap, In (tok, docMap) index /\ In id (map fst docMap)) ->
  exists docMap,
    In (tok, docMap) (fold_left (addField id' document) fs index) /\ In id (map fst docMap).
Proof.
  revert index. induction fs as [|field fs IH]; intros index H; simpl; [exact H|].
  apply IH. unfold addField.
  generalize (fieldTokens document field). intros tokens. revert index H.
  induction tokens as [|t tokens IHt]; intros index H; simpl; [exact H|].
  apply IHt. now apply addToken_keeps_ids.
Qed.

Lemma addFields_keeps_entry (id id' document : Value) (fs : list string)
  (index : list (string * list (Value * Z))) (tok : string) :
  (exists docMap, mapGet String.eqb index tok = Some docMap /\ In id (map fst docMap)) ->
  exists docMap,
    mapGet String.eqb (fold_left (addField id' document) fs index) tok = Some docMap /\
    In id (map fst docMap).
Proof.
  revert index. induction fs as [|field fs IH]; intros index H; simpl; [exact H|].
  apply IH. unfold addField.
  generalize (fieldTokens document field). intros tokens. revert index H.
  induction tokens as [|t tokens IHt]; intros index H; simpl; [exact H|].
  apply IHt. now apply addToken_keeps_entry.
Qed.

(** X26.  [add] never takes a document out of the reach of a query: an id
    that is a candidate for some terms, exact or by prefix, is still a
    candidate for them after any further [add], whether that call stored a
    document, skipped its argument or threw. *)
Theorem add_keeps_the_candidates
  (this : t) (document : Value) (terms : list string) (prefixMode : bool) (id : Value) :
  In id (candidateIds this terms prefixMode) ->
  In id (candidateIds (built (add this document)) terms prefixMode).
Proof.
  unfold add.
  destruct (negb (truthy document) || negb (typeOf document =? "object")%string);
    [tauto|].
  destruct (isNullish (getProp document "id")); [tauto|]. simpl.
  rewrite !candidateIds_In. intros [N H]. split; [exact N|].
  intros term I. specialize (H term I). rewrite groupIds_In in *.
  destruct H as [m [Im K]]. destruct prefixMode.
  - apply lookupTerm_prefix_In in Im. destruct Im as [Ie S].
    destruct (addFields_keeps_ids id (getProp document "id") document (fields this)
                (invertedIndex this) (token m))
      as [docMap [Id Kd]]; [now exists (docs m)|].
    exists (mkMatch (token m) docMap). split; [|exact Kd].
    apply lookupTerm_prefix_In. now split.
  - apply lookupTerm_exact_In in Im. destruct Im as [E G].
    destruct (addFields_keeps_entry id (getProp document "id") document (fields this)
                (invertedIndex this) term)
      as [docMap [Gd Kd]]; [now exists (docs m)|].
    exists (mkMatch term docMap). split; [|exact Kd].
    apply lookupTerm_exact_In. now split.
Qed.

Lemma add_keeps_the_candidates_witness :
  In (VStr "a") (candidateIds helloIndex ["world"] false) /\
  In (VStr "a") (candidateIds (built (add helloIndex taggedPost)) ["world"] false).
Proof.
  assert (I : In (VStr "a") (candidateIds helloIndex ["world"] false)) by (left; reflexivity).
  split; [exact I|].
  exact (add_keeps_the_candidates helloIndex taggedPost ["world"] false (VStr "a") I).
Defined.
